(** * Oscillator strengths and absorption spectrum of nano-qmflows

    A shallow embedding of the oscillator-strength / absorption-spectrum
    pipeline ([nac/workflows/workflow_AbsortionSpectrum.py]) and of the
    multipole-integral cache ([nanoqm/integrals/multipole_matrices.py],
    [nanoqm/common.py]).

    Conventions.
    - Python [float] arithmetic of the spectrum pipeline is idealised as
      arithmetic on the real numbers [R].  Rounding is modelled where a
      decision of the code depends on it: in the number of points of the
      energy grid, which is the [int()] of a quotient of rounded
      quotients.  There every operation is followed by a rounding [fl]
      to binary64, of which the theorems assume monotonicity and the
      relative error bound 2^-53 (no underflow, no overflow); the same
      lines are also embedded in binary64 itself ([Binary64]), where
      they can be evaluated.
    - The arrays that travel through the HDF5 store are modelled with
      IEEE-754 values ([spec_float]) because the store narrows them to
      single precision.
    - Python exceptions are values of [error]; fallible code returns
      [result]. *)

From Stdlib Require Import Reals Lra Lia ZArith List Bool Ascii String.
From Stdlib Require Import Floats.SpecFloat.
From Stdlib Require Floats.PrimFloat Floats.FloatOps.
From stdpp Require Import gmap strings pretty.

(** ** Exceptions and the error monad *)

Inductive error : Type :=
| IndexError
| ValueError
| KeyError
| ZeroDivisionError
| UnboundLocalError
| OSError
| FileNotFoundError
| TypeError
| RuntimeError
| OverflowError
| KernelError.

Inductive result (A : Type) : Type :=
| Ok (a : A)
| Err (e : error).
Arguments Ok {A} a.
Arguments Err {A} e.

Definition bindR {A B} (m : result A) (k : A -> result B) : result B :=
  match m with
  | Ok a => k a
  | Err e => Err e
  end.

Notation "'do' x <- m ; k" := (bindR m (fun x => k))
  (at level 10, x name, m at level 100, k at level 200).
Notation "'do' ' p <- m ; k" := (bindR m (fun x => match x with p => k end))
  (at level 10, p pattern, m at level 100, k at level 200).

(** [[f(x) for x in xs]] where [f] may raise: the first failure aborts. *)
Fixpoint mapR {A B} (f : A -> result B) (xs : list A) : result (list B) :=
  match xs with
  | [] => Ok []
  | x :: xs' => do y <- f x; do ys <- mapR f xs'; Ok (y :: ys)
  end.

(** ** Finite sums, vectors and matrices over the reals *)

Section Numerics.
Local Open Scope R_scope.

(** [sum_n n f] is f 0 + ... + f (n-1). *)
Fixpoint sum_n (n : nat) (f : nat -> R) : R :=
  match n with
  | O => 0
  | S k => sum_n k f + f k
  end.

(** Python's builtin [sum]: a left fold that starts from 0. *)
Definition py_sum (xs : list R) : R := fold_left Rplus xs 0.

Definition Vector := list R.
(** A two-dimensional array, stored as the list of its rows. *)
Definition Matrix := list (list R).

Definition nrows (M : Matrix) : nat := length M.
Definition ncols (M : Matrix) : nat :=
  match M with
  | [] => O
  | row :: _ => length row
  end.
Definition entry (M : Matrix) (i j : nat) : R := nth j (nth i M []) 0.

Definition mk_matrix (r c : nat) (f : nat -> nat -> R) : Matrix :=
  map (fun i => map (fun j => f i j) (seq 0 c)) (seq 0 r).

(** Every row has length [c] and there are [r] rows. *)
Definition has_shape (r c : nat) (M : Matrix) : Prop :=
  length M = r /\ Forall (fun row => length row = c) M.

Definition is_rect (M : Matrix) : bool :=
  forallb (fun row => Nat.eqb (length row) (ncols M)) M.

(** Index [i] along an axis of length [n]: negative indices count from
    the end, anything else out of range raises [IndexError]. *)
Definition py_index (n : nat) (i : Z) : result nat :=
  if ((0 <=? i) && (i <? Z.of_nat n))%Z then Ok (Z.to_nat i)
  else if ((- Z.of_nat n <=? i) && (i <? 0))%Z then Ok (Z.to_nat (i + Z.of_nat n))
  else Err IndexError.

(** [v[i]] *)
Definition get_item (v : Vector) (i : Z) : result R :=
  do k <- py_index (length v) i; Ok (nth k v 0).

(** [M[:, i]] *)
Definition get_column (M : Matrix) (i : Z) : result Vector :=
  do k <- py_index (ncols M) i; Ok (map (fun row => nth k row 0) M).

(** [np.dot] of two one-dimensional arrays. *)
Definition np_dot_vv (u v : Vector) : result R :=
  if Nat.eqb (length u) (length v)
  then Ok (sum_n (length u) (fun k => nth k u 0 * nth k v 0))
  else Err ValueError.

(** [np.dot] of a two-dimensional array with a one-dimensional one. *)
Definition np_dot_mv (M : Matrix) (v : Vector) : result Vector :=
  if is_rect M && Nat.eqb (ncols M) (length v)
  then Ok (map (fun row => sum_n (length v) (fun k => nth k row 0 * nth k v 0)) M)
  else Err ValueError.

(** Matrix product of two two-dimensional arrays. *)
Definition np_dot_mm (A B : Matrix) : result Matrix :=
  if is_rect A && is_rect B && Nat.eqb (ncols A) (nrows B)
  then Ok (mk_matrix (nrows A) (ncols B)
             (fun i j => sum_n (ncols A) (fun k => entry A i k * entry B k j)))
  else Err ValueError.

Definition transpose (A : Matrix) : Matrix :=
  mk_matrix (ncols A) (nrows A) (fun i j => entry A j i).

End Numerics.

(** ** The oscillator strength calculator *)

Section Oscillator.
Local Open Scope R_scope.

(** [Oscillator = namedtuple("Oscillator",
      ('initialS', 'finalS', 'deltaE', 'fij', 'components'))] *)
Record Oscillator : Type := mkOscillator {
  initialS : Z;
  finalS : Z;
  deltaE : R;
  fij : R;
  components : list R
}.

(** [oscillator_strength(css_i, css_j, energy, mtx_integrals_spher)] *)
Definition oscillator_strength (css_i css_j : Vector) (energy : R)
    (mtx_integrals_spher : list Matrix) : result (R * list R) :=
  do components <-
     mapR (fun mtx => do t <- np_dot_mv mtx css_j; np_dot_vv css_i t)
          mtx_integrals_spher;
  let sum_integrals := py_sum (map (fun x => x ^ 2) components) in
  let fij := (2 / 3) * energy * sum_integrals in
  Ok (fij, components).

(** [compute_oscillator_strength(rc, atoms, dictCGFs, es, coeffs,
      mtx_integrals_spher, initialS, fs)]; the first three arguments are
    not used by the body and are left out. *)
Definition compute_oscillator_strength (es : Vector) (coeffs : Matrix)
    (mtx_integrals_spher : list Matrix) (initialS : Z) (fs : list Z)
    : result (list Oscillator) :=
  do css_i <- get_column coeffs initialS;
  do energy_i <- get_item es initialS;
  mapR (fun finalS =>
          do css_j <- get_column coeffs finalS;
          do energy_j <- get_item es finalS;
          let deltaE := energy_j - energy_i in
          do '(fij, components) <-
             oscillator_strength css_i css_j deltaE mtx_integrals_spher;
          Ok (mkOscillator initialS finalS deltaE fij components))
       fs.

End Oscillator.

(** ** Dipole matrices of one frame *)

Section Dipole.
Local Open Scope R_scope.

(** [AtomXYZ = namedtuple("AtomXYZ", ("symbol", "xyz"))] *)
Record AtomXYZ : Type := mkAtom {
  symbol : string;
  xyz : R * R * R
}.

(** Position of entry (i, j), i <= j, in the row-major packing of the
    upper triangle of a [dim] x [dim] matrix. *)
Definition triu_index (dim i j : nat) : nat :=
  (i * dim - i * (i - 1) / 2 + (j - i))%nat.

(** The full symmetric [dim] x [dim] matrix of a packed upper triangle:
    the diagonal counted once, the off-diagonal entries mirrored. *)
Definition full_symmetric (xs : Vector) (dim : nat) : Matrix :=
  mk_matrix dim dim
    (fun i j => nth (triu_index dim (Nat.min i j) (Nat.max i j)) xs 0).

(** Modelled from the spec: [triang2mtx] is imported from [nac.common],
    which is not among the sources.  The spec describes it as expanding a
    packed triangular array into a full symmetric square matrix of size
    [dim] x [dim], the diagonal counted once and the off-diagonal entries
    mirrored.  It says nothing about an array that does not have
    dim (dim + 1) / 2 entries, and nothing is assumed about one here. *)
Definition expands_triangle (triang2mtx : Vector -> nat -> result Matrix)
    : Prop :=
  forall xs dim,
    length xs = (dim * (dim + 1) / 2)%nat ->
    triang2mtx xs dim = Ok (full_symmetric xs dim).

(** [transform2Spherical(trans_mtx, matrix)]:
    [trans_mtx.dot(sparse.csr_matrix.dot(matrix, transpose))] *)
Definition transform2Spherical (trans_mtx matrix : Matrix) : result Matrix :=
  do inner <- np_dot_mm matrix (transpose trans_mtx);
  np_dot_mm trans_mtx inner.

Section Kernel.
(** The basis set [dictCGFs] and the integral routine [calcMtxMultipoleP]
    of [nac.integrals.multipoleIntegrals] are external; the routine
    returns the packed upper triangle of one multipole matrix. *)
Variable CGFs : Type.
Variable calcMtxMultipoleP :
  list AtomXYZ -> CGFs -> R * R * R -> nat * nat * nat -> Vector.
(** [triang2mtx] of [nac.common], external as well; what the spec says
    of it is [expands_triangle]. *)
Variable triang2mtx : Vector -> nat -> result Matrix.
(** [getmass] of [nac.common]: the mass number of an element; the
    lookup raises for a symbol that is not an element. *)
Variable getmass : string -> result Z.

(** [calcDipoleCGFS(atoms, dictCGFs, rc, trans_mtx)] *)
Definition calcDipoleCGFS (atoms : list AtomXYZ) (dictCGFs : CGFs)
    (rc : R * R * R) (trans_mtx : Matrix) : result (list Matrix) :=
  let exponents := [(1, 0, 0); (0, 1, 0); (0, 0, 1)]%nat in
  let dimCart := ncols trans_mtx in
  let mtx_integrals_triang :=
    map (fun kw => calcMtxMultipoleP atoms dictCGFs rc kw) exponents in
  do mtx_integrals_cart <-
     mapR (fun xs => triang2mtx xs dimCart) mtx_integrals_triang;
  mapR (fun x => transform2Spherical trans_mtx x) mtx_integrals_cart.

(** [compute_center_of_mass(atoms)].  For a molecule without atoms
    [np.sum(mrs, axis=0)] is a scalar, and so is [cm]: [tuple(cm)] raises
    [TypeError]. *)
Definition compute_center_of_mass (atoms : list AtomXYZ)
    : result (R * R * R) :=
  do masses <- mapR (fun a => getmass (symbol a)) atoms;
  let total_mass := py_sum (map IZR masses) in
  do mrs <- mapR (fun a => do m <- getmass (symbol a);
                           let '(x, y, z) := xyz a in
                           Ok (IZR m * x, IZR m * y, IZR m * z)) atoms;
  let xs := (py_sum (map (fun r => fst (fst r)) mrs),
             py_sum (map (fun r => snd (fst r)) mrs),
             py_sum (map (fun r => snd r) mrs)) in
  match atoms with
  | [] => Err TypeError
  | _ :: _ =>
      Ok (fst (fst xs) / total_mass, snd (fst xs) / total_mass,
          snd xs / total_mass)
  end.

(** The HDF5 reads of one frame: orbital energies and coefficients of
    frame [i], and the transformation matrix when its path is given. *)
Variable retrieve_mos : nat -> result (Vector * Matrix).
Variable hdf5_trans_mtx : option (result Matrix).

(** [calcOscillatorStrenghts(i, ..., atoms, ..., initial_states,
      final_states)] *)
Definition calcOscillatorStrenghts (i : nat) (dictCGFs : CGFs)
    (atoms : list AtomXYZ) (initial_states : list Z)
    (final_states : list (list Z)) : result (list (list Oscillator)) :=
  do '(es, coeffs) <- retrieve_mos i;
  do trans_mtx_read <-
     match hdf5_trans_mtx with
     | Some r => do t <- r; Ok (Some t)
     | None => Ok None
     end;
  do rc <- compute_center_of_mass atoms;
  do trans_mtx <-
     match trans_mtx_read with
     | Some t => Ok t
     | None => Err UnboundLocalError
     end;
  do mtx_integrals_spher <- calcDipoleCGFS atoms dictCGFs rc trans_mtx;
  mapR (fun '(initialS, fs) =>
          compute_oscillator_strength es coeffs mtx_integrals_spher initialS fs)
       (combine initial_states final_states).

End Kernel.
End Dipole.

(** ** Spectral synthesis *)

Section Spectrum.
Local Open Scope R_scope.

(** The entries of [scipy.constants.physical_constants] that the
    workflow reads. *)
Record PhysicalConstants : Type := mkConstants {
  h2ev : R;             (* 'Hartree energy in eV' *)
  au_length : R;        (* 'atomic unit of length' *)
  au_energy : R;        (* 'atomic unit of energy' *)
  electron_volt : R;    (* 'electron volt' *)
  avogadro : R          (* 'Avogadro constant' *)
}.

Definition codata : PhysicalConstants :=
  {| h2ev := 27.211386245988;
     au_length := 5.29177210903e-11;
     au_energy := 4.3597447222071e-18;
     electron_volt := 1.602176634e-19;
     avogadro := 6.02214076e23 |}.

Variable pc : PhysicalConstants.

Definition au_energy_to_ev : R := au_energy pc / electron_volt pc.

(** [gaussian_distribution(x, center, delta)] *)
Definition gaussian_distribution (x center delta : R) : R :=
  let pre_expo := sqrt (2 / PI) / delta in
  let expo := exp (-2 * ((x - center) / delta) ^ 2) in
  pre_expo * expo.

(** [lorentzian_distribution(x, center, delta)] *)
Definition lorentzian_distribution (x center delta : R) : R :=
  let cte := delta / (2 * PI) in
  let denominator := (x - center) ^ 2 + (delta / 2) ^ 2 in
  cte * (1 / denominator).

(** The dictionary [convolution_functions]. *)
Definition convolution_functions : gmap string (R -> R -> R -> R) :=
  <["gaussian" := gaussian_distribution]>
    (<["lorentzian" := lorentzian_distribution]> ∅).

(** [zip] applied to the unpacked list [xss]: the tuples of k-th
    elements, as many as the shortest argument has; no tuple at all when
    there is no argument. *)
Fixpoint zip_star {A} (xss : list (list A)) : list (list A) :=
  match xss with
  | [] => []
  | [xs] => map (fun x => [x]) xs
  | xs :: rest =>
      map (fun p => fst p :: snd p) (combine xs (zip_star rest))
  end.

(** The triple aggregation inside [compute_cross_section]: the argument
    of [cte * sum(...)]. *)
Definition intensity (oscillators : list (list (list Oscillator)))
    (fun_convolution : R -> R -> R -> R) (broadening energy : R) : R :=
  py_sum (map (fun arr =>
    py_sum (map (fun ws =>
      py_sum (map (fun osc =>
                fij osc * fun_convolution energy (deltaE osc) broadening) ws)
      / INR (length ws))
      (zip_star arr)))
    (zip_star oscillators)).

(** The inner function [compute_cross_section(energy)]. *)
Definition compute_cross_section (oscillators : list (list (list Oscillator)))
    (fun_convolution : R -> R -> R -> R) (broadening energy : R) : R :=
  let c := 137.036 in
  let cte := 2 * PI ^ 2 / c in
  let grid_au := cte * intensity oscillators fun_convolution broadening energy in
  grid_au * (au_length pc * 100) ^ 2.

(** [np.vectorize(f)(xs)] without [otypes]: a size-0 argument raises
    [ValueError]. *)
Definition np_vectorize {A B} (f : A -> B) (xs : list A) : result (list B) :=
  match xs with
  | [] => Err ValueError
  | _ => Ok (map f xs)
  end.

(** [compute_cross_section_grid(oscillators, path_hdf5, mo_paths_hdf5,
      convolution, energies, broadening, calculate_oscillator_every)] *)
Definition compute_cross_section_grid
    (oscillators : list (list (list Oscillator))) (convolution : string)
    (energies : Vector) (broadening : R) : result Vector :=
  do fun_convolution <-
     match convolution_functions !! convolution with
     | Some f => Ok f
     | None => Err KeyError
     end;
  np_vectorize (compute_cross_section oscillators fun_convolution broadening)
               energies.

(** [int(x)] of a float: truncation towards zero. *)
Definition py_int (x : R) : Z :=
  if Rlt_dec x 0 then (- Int_part (- x))%Z else Int_part x.

(** The rounding to binary64 that ends a float operation. *)
Variable fl : R -> R.

(** Python float division: the rounded quotient. *)
Definition py_div (x y : R) : result R :=
  if Req_dec_T y 0 then Err ZeroDivisionError else Ok (fl (x / y)).

(** Python float subtraction: the rounded difference. *)
Definition py_sub (x y : R) : R := fl (x - y).

(** [np.linspace(start, stop, num)] with the default [endpoint=True]. *)
Definition np_linspace (start stop : R) (num : Z) : result Vector :=
  if (num <? 0)%Z then Err ValueError
  else
    let n := Z.to_nat num in
    let div := (n - 1)%nat in
    let delta := stop - start in
    let step := if Nat.ltb 0 div then delta / INR div else delta in
    let y := map (fun k => INR k * step + start) (seq 0 n) in
    Ok (if Nat.ltb 1 n then <[(n - 1)%nat := stop]> y else y).

(** [create_promised_cross_section(path_hdf5, mo_paths_hdf5, oscillators,
      broadening, energy_range, convolution, calculate_oscillator_every)]:
    the grid is built at once; the scheduled call of
    [compute_cross_section_grid] is returned as a function that waits for
    the gathered oscillators. *)
Definition create_promised_cross_section (broadening : R)
    (energy_range : R * R) (convolution : string)
    : result (Vector * (list (list (list Oscillator)) -> result Vector)) :=
  do broad_au <- py_div broadening (h2ev pc);
  do initial_energy <- py_div (fst energy_range) (h2ev pc);
  do final_energy <- py_div (snd energy_range) (h2ev pc);
  do ratio <- py_div (py_sub final_energy initial_energy) broad_au;
  let npoints := py_int ratio in
  do energies <- np_linspace initial_energy final_energy npoints;
  Ok (energies,
      fun oscillators =>
        compute_cross_section_grid oscillators convolution energies broadening).

End Spectrum.

(** The same lines of [create_promised_cross_section] in binary64
    itself, as far as the number of grid points: the three divisions by
    [h2ev], the difference, the quotient and [int()]. *)
Module Binary64.
Import PrimFloat FloatOps.

(** The binary64 number nearest to 27.211386245988, the value of
    [h2ev] in [codata], and the one nearest to 27.21138602, its value
    in the CODATA 2014 tables. *)
Definition h2ev : float := 0x1.b361d68b557b9p+4%float.
Definition h2ev_2014 : float := 0x1.b361d64eabb4ap+4%float.

(** The binary64 number nearest to 0.1. *)
Definition tenth : float := 0x1.999999999999ap-4%float.

(** A Python [int] as operand of a float operation (exact below
    2^53). *)
Definition of_int (z : Z) : float :=
  SF2Prim match z with
          | Z0 => S754_zero false
          | Zpos p => S754_finite false p 0
          | Zneg p => S754_finite true p 0
          end.

(** Python float division. *)
Definition py_div (x y : float) : result float :=
  if (y =? 0)%float then Err ZeroDivisionError else Ok (x / y)%float.

(** [int(x)] of a float: truncation towards zero; [ValueError] for a
    nan and [OverflowError] for an infinity. *)
Definition py_int (x : float) : result Z :=
  match Prim2SF x with
  | S754_zero _ => Ok 0%Z
  | S754_finite s m e =>
      let n := if (0 <=? e)%Z then (Z.pos m * 2 ^ e)%Z
               else (Z.pos m / 2 ^ (- e))%Z in
      Ok (if s then (- n)%Z else n)
  | S754_infinity _ => Err OverflowError
  | S754_nan => Err ValueError
  end.

(** [int((final_energy - initial_energy) / broad_au)] *)
Definition npoints (h2ev broadening : float) (energy_range : float * float)
    : result Z :=
  do broad_au <- py_div broadening h2ev;
  do initial_energy <- py_div (fst energy_range) h2ev;
  do final_energy <- py_div (snd energy_range) h2ev;
  do ratio <- py_div (final_energy - initial_energy)%float broad_au;
  py_int ratio.

End Binary64.

(** ** Stateful code: state passing with exceptions

    A computation takes the world and returns the world it leaves
    behind together with its value or the exception it raised; the
    effects made before an exception stay. *)

Definition M (S A : Type) : Type := S -> S * result A.

Definition retM {S A} (a : A) : M S A := fun s => (s, Ok a).
Definition liftR {S A} (r : result A) : M S A := fun s => (s, r).
Definition bindM {S A B} (m : M S A) (k : A -> M S B) : M S B :=
  fun s =>
    match m s with
    | (s', Ok a) => k a s'
    | (s', Err e) => (s', Err e)
    end.
Definition modifyM {S} (f : S -> S) : M S unit := fun s => (f s, Ok tt).
Definition getsM {S A} (f : S -> A) : M S A := fun s => (s, Ok (f s)).

Notation "'run' x <- m ; k" := (bindM m (fun x => k))
  (at level 10, x name, m at level 100, k at level 200).
Notation "'run_' m ; k" := (bindM m (fun _ => k))
  (at level 10, m at level 100, k at level 200).

(** [for x in xs: body(x)] *)
Fixpoint forM {S A} (xs : list A) (body : A -> M S unit) : M S unit :=
  match xs with
  | [] => retM tt
  | x :: xs' => run_ body x; forM xs' body
  end.

(** Evaluating [f] on every element in order, collecting the values. *)
Fixpoint mapM {S A B} (f : A -> M S B) (xs : list A) : M S (list B) :=
  match xs with
  | [] => retM []
  | x :: xs' => run y <- f x ; run ys <- mapM f xs' ; retM (y :: ys)
  end.

(** ** The result writer and the workflow *)

Section Workflow.
Local Open Scope R_scope.

(** A line of a text file: literal text, one formatted transition, or a
    two-column row written by [np.savetxt]. *)
Inductive line : Type :=
| TextLine (s : string)
| TransitionLine (initialS finalS : Z) (energy energy_nm fij : R)
                 (c1 c2 c3 : R)
| DataLine (x y : R).

(** What the run does besides writing files. *)
Inductive event : Type :=
| ComputeFrame (i : nat)
| PrintOscillators
| Stdout (s : string).

Record World : Type := mkWorld {
  files : gmap string (list line);
  trace : list event
}.

Variable pc : PhysicalConstants.
Variable fl : R -> R.

(** [with open(filename, 'w') as f: f.write(text)] *)
Definition open_w (filename : string) (text : list line) : M World unit :=
  modifyM (fun w => mkWorld (<[filename := text]> (files w)) (trace w)).

(** [with open(filename, 'a') as f: f.write(text)] *)
Definition open_a (filename : string) (text : list line) : M World unit :=
  modifyM (fun w =>
    mkWorld (<[filename := default [] (files w !! filename) ++ text]> (files w))
            (trace w)).

Definition log (e : event) : M World unit :=
  modifyM (fun w => mkWorld (files w) (trace w ++ [e])).

(** [write_oscillator(filename, initialS, finalS, deltaE, fij, components)];
    the format string has three places for the components. *)
Definition write_oscillator (filename : string) (osc : Oscillator)
    : M World unit :=
  let energy := deltaE osc * h2ev pc in
  let energy_nm := deltaE osc * 2.19475e5 * 1e7 in
  run fmt <- liftR
    match components osc with
    | c1 :: c2 :: c3 :: _ =>
        Ok (TransitionLine (initialS osc) (finalS osc) energy energy_nm
                           (fij osc) c1 c2 c3)
    | _ => Err IndexError
    end ;
  open_a filename [fmt].

Definition oscillators_header : line :=
  TextLine "Transition Energy[eV] Energy[nm^-1] Oscillator Transition_dipole_components [a.u.]".

(** [write_information(data)] *)
Definition write_information (data : list (list (list Oscillator)))
    : M World unit :=
  let header := oscillators_header in
  let filename := "oscillators.txt"%string in
  forM (concat data) (fun xs =>
    run_ open_w filename [header];
    forM xs (fun args => write_oscillator filename args)).

(** [np.savetxt(fname, np.stack((xs, ys), axis=1), header=...)] *)
Definition np_savetxt (fname : string) (xs ys : Vector) (header : string)
    : M World unit :=
  if Nat.eqb (length xs) (length ys)
  then open_w fname (TextLine header
                       :: map (fun p => DataLine (fst p) (snd p)) (combine xs ys))
  else liftR (Err ValueError).

(** [[... for i, mol in enumerate(molecules_au)
         if i % calculate_oscillator_every == 0]] *)
Fixpoint select_frames {A} (calculate_oscillator_every : Z)
    (ims : list (nat * A)) : result (list (nat * A)) :=
  match ims with
  | [] => Ok []
  | (i, mol) :: rest =>
      if (calculate_oscillator_every =? 0)%Z then Err ZeroDivisionError
      else
        do tail <- select_frames calculate_oscillator_every rest;
        Ok (if (Z.of_nat i mod calculate_oscillator_every =? 0)%Z
            then (i, mol) :: tail else tail)
  end.

Definition enumerate {A} (xs : list A) : list (nat * A) :=
  combine (seq 0 (length xs)) xs.

(** The scheduled function [calcOscillatorStrenghts], with the
    arguments that are the same for every frame already supplied. *)
Variable scheduleOscillator :
  nat -> list AtomXYZ -> result (list (list Oscillator)).

(** [workflow_oscillator_strength(...)].  The scheduled calls are only
    evaluated by [run]; the energy grid is built before that, and the
    cross section, which takes the gathered oscillators as argument, is
    evaluated after every per-frame job.  The logging set-up and the
    molecular-orbital calculations of [calculate_mos] (external, part of
    each per-frame job) are left out.

    Modelled from the spec: [run] is imported from [qmworks], which is
    not among the sources.  The spec makes the synthesis a join point
    behind the frames, which have no order among themselves, and lets a
    fatal error of a frame abort the sweep; here the jobs are evaluated
    in the order of the frames and the first failure ends the run.
    The theorems below about a run that reaches the frames assume that
    every job succeeds. *)
Definition workflow_oscillator_strength (molecules_au : list (list AtomXYZ))
    (calculate_oscillator_every : Z) (convolution : string)
    (broadening : R) (energy_range : R * R)
    : M World (list (list (list Oscillator))) :=
  run oscillators <- liftR
    (select_frames calculate_oscillator_every (enumerate molecules_au)) ;
  run promised <- liftR
    (create_promised_cross_section pc fl broadening energy_range convolution) ;
  let '(energies, promised_cross_section) := promised in
  (* run(gather(promised_cross_section, oscillators)) *)
  run data <- mapM (fun '(i, mol) =>
                   run_ log (ComputeFrame i); liftR (scheduleOscillator i mol))
                oscillators ;
  run_ log PrintOscillators;
  run cross_section <- liftR (promised_cross_section data) ;
  let energies := map (fun e => e * au_energy_to_ev pc) energies in
  run_ np_savetxt "cross_section_cm.txt" energies cross_section
                  "Energy [eV] photoabsorption_cross_section [cm^2]";
  let nA := avogadro pc in
  let cte := ln 10 * 1e3 / nA in
  let extinction_coefficients := map (fun x => x / cte) cross_section in
  run_ np_savetxt "molar_extinction_coefficients.txt" energies
                  extinction_coefficients
                  "Energy [eV] Extinction_coefficients [M^-1 cm^-1]";
  run_ log (Stdout "Calculation Done");
  run_ write_information data;
  retM data.

End Workflow.

(** ** The multipole integral cache *)

Section Cache.

Inductive dtype : Type := Float32 | Float64.

(** A numpy array: element type, shape, and the elements in row-major
    order. *)
Record ndarray : Type := mkArray {
  nd_dtype : dtype;
  nd_shape : list nat;
  nd_data : list spec_float
}.

(** The largest binary32 number, (2^24 - 1) 2^104. *)
Definition flt_max : spec_float := S754_finite false 16777215 104.

(** Conversion to binary32 as the HDF5 library does it: a value beyond
    the largest binary32 number becomes an infinity, any other value is
    rounded to the nearest binary32 number. *)
Definition round_float32 (x : spec_float) : spec_float :=
  match x with
  | S754_finite s m e =>
      if SFltb flt_max (SFabs x) then S754_infinity s
      else binary_round 24 128 s m e
  | _ => x
  end.
(** Rounding to the nearest binary64 number. *)
Definition round_float64 (x : spec_float) : spec_float :=
  match x with
  | S754_finite s m e => binary_round 53 1024 s m e
  | _ => x
  end.

(** Conversion of the elements to [dt], as done when a dataset is
    created with [dtype=dt]. *)
Definition astype (dt : dtype) (a : ndarray) : ndarray :=
  match dt with
  | Float32 => mkArray Float32 (nd_shape a) (map round_float32 (nd_data a))
  | Float64 => mkArray Float64 (nd_shape a) (map round_float64 (nd_data a))
  end.

(** [a.reshape(shape)] *)
Definition reshape (a : ndarray) (shape : list nat) : result ndarray :=
  if Nat.eqb (fold_right Nat.mul 1%nat shape) (length (nd_data a))
  then Ok (mkArray (nd_dtype a) shape (nd_data a))
  else Err ValueError.

(** [a.shape[1]] *)
Definition shape1 (a : ndarray) : result nat :=
  match nth_error (nd_shape a) 1 with
  | Some d => Ok d
  | None => Err IndexError
  end.

(** [os.path.join] *)
Definition starts_with_sep (b : string) : bool :=
  match b with
  | String c _ => Ascii.eqb c "/"%char
  | EmptyString => false
  end.
Fixpoint ends_with_sep (p : string) : bool :=
  match p with
  | EmptyString => false
  | String c EmptyString => Ascii.eqb c "/"%char
  | String _ rest => ends_with_sep rest
  end.
Definition join2 (path b : string) : string :=
  if starts_with_sep b then b
  else if String.eqb path EmptyString || ends_with_sep path then path +:+ b
  else path +:+ "/" +:+ b.
Definition join (a : string) (ps : list string) : string :=
  fold_left join2 ps a.

(** The fields of the configuration that the cache reads. *)
Record DictConfig : Type := mkConfig {
  project_name : string;
  enumerate_from : Z;
  path_hdf5 : string;
  scratch_path : string;
  cp2k_basis : string       (* config["cp2k_general_settings"]["basis"] *)
}.

(** Information about the current point. *)
Record PointInput : Type := mkInput {
  inp_i : Z;
  inp_mol : list AtomXYZ
}.

(** The part of the outside world the cache touches: the HDF5 files
    (by path, each a map from the path of a dataset to the dataset; the
    groups above a dataset are not represented, so a path stands for a
    dataset or for nothing), the geometry files in the scratch
    directory, the calls received by the integral library, and how many
    UUIDs were drawn. *)
Record Disk : Type := mkDisk {
  hdf5 : gmap string (gmap string ndarray);
  scratch : gmap string (list AtomXYZ);
  kernel_calls : list (string * string * string * string);
  uuid_count : nat
}.

(** [uuid.uuid4()]: the n-th identifier drawn. *)
Variable uuid4 : nat -> string.
(** [compute_integrals_multipole] of the Libint interface, as a function
    of the geometry it reads from the scratch file, the basis name and
    the multipole kind. *)
Variable compute_integrals_multipole :
  list AtomXYZ -> string -> string -> result ndarray.

(** [is_data_in_hdf5(path_hdf5, xs)] for a single node path. *)
Definition is_data_in_hdf5 (path_hdf5 xs : string) : M Disk bool :=
  getsM (fun d =>
    match hdf5 d !! path_hdf5 with
    | Some f5 => bool_decide (is_Some (f5 !! xs))
    | None => false
    end).

(** [retrieve_hdf5_data(path_hdf5, paths_to_prop)] for a single path. *)
Definition retrieve_hdf5_data (path_hdf5 paths_to_prop : string)
    : M Disk ndarray :=
  fun d =>
    match hdf5 d !! path_hdf5 with
    | None => (d, Err RuntimeError)
    | Some f5 =>
        match f5 !! paths_to_prop with
        | Some a => (d, Ok a)
        | None => (d, Err KeyError)
        end
    end.

(** [np.can_cast(from, to)] with the default safe casting. *)
Definition can_cast (from to : dtype) : bool :=
  match from, to with
  | Float64, Float32 => false
  | _, _ => true
  end.

(** [store_arrays_in_hdf5(path_hdf5, paths, tensor, dtype=np.float32)]
    for a single path: [require_dataset] creates the dataset with the
    data converted to [dtype]; an existing dataset is returned
    untouched when it has the shape of the tensor and [dtype] can be
    cast safely to its element type, and [TypeError] is raised
    otherwise. *)
Definition store_arrays_in_hdf5 (path_hdf5 paths : string) (tensor : ndarray)
    (dt : dtype) : M Disk unit :=
  fun d =>
    match hdf5 d !! path_hdf5 with
    | None => (d, Err OSError)
    | Some f5 =>
        match f5 !! paths with
        | None =>
            (mkDisk (<[path_hdf5 := <[paths := astype dt tensor]> f5]> (hdf5 d))
                    (scratch d) (kernel_calls d) (uuid_count d),
             Ok tt)
        | Some dset =>
            if bool_decide (nd_shape dset = nd_shape tensor)
            then if can_cast dt (nd_dtype dset)
                 then (d, Ok tt)
                 else (d, Err TypeError)
            else (d, Err TypeError)
        end
    end.

(** [search_multipole_in_hdf5(path_hdf5, path_multipole_hdf5, multipole)] *)
Definition search_multipole_in_hdf5 (path_hdf5 path_multipole_hdf5 : string)
    : M Disk (option ndarray) :=
  run found <- is_data_in_hdf5 path_hdf5 path_multipole_hdf5;
  if found
  then run a <- retrieve_hdf5_data path_hdf5 path_multipole_hdf5; retM (Some a)
  else retM None.

(** [mol_plams.write(path)] *)
Definition write_xyz (path : string) (mol : list AtomXYZ) : M Disk unit :=
  modifyM (fun d =>
    mkDisk (hdf5 d) (<[path := mol]> (scratch d)) (kernel_calls d)
           (uuid_count d)).

(** [os.remove(path)] *)
Definition os_remove (path : string) : M Disk unit :=
  fun d =>
    match scratch d !! path with
    | Some _ =>
        (mkDisk (hdf5 d) (delete path (scratch d)) (kernel_calls d)
                (uuid_count d),
         Ok tt)
    | None => (d, Err FileNotFoundError)
    end.

Definition draw_uuid : M Disk string :=
  fun d =>
    (mkDisk (hdf5 d) (scratch d) (kernel_calls d) (S (uuid_count d)),
     Ok (uuid4 (uuid_count d))).

(** One call of the integral library: the call is recorded, the library
    reads the geometry file and returns a tensor or fails. *)
Definition call_kernel (path path_hdf5 basis_name multipole : string)
    : M Disk ndarray :=
  fun d =>
    let d' := mkDisk (hdf5 d) (scratch d)
                     (kernel_calls d ++ [(path, path_hdf5, basis_name, multipole)])
                     (uuid_count d) in
    match scratch d !! path with
    | Some mol => (d', compute_integrals_multipole mol basis_name multipole)
    | None => (d', Err KernelError)
    end.

(** [compute_matrix_multipole(mol, config, multipole)] *)
Definition compute_matrix_multipole (mol : list AtomXYZ) (config : DictConfig)
    (multipole : string) : M Disk ndarray :=
  let path_hdf5 := path_hdf5 config in
  run u <- draw_uuid;
  let path := join (scratch_path config) ["molecule_" +:+ u +:+ ".xyz"] in
  run_ write_xyz path mol;
  let basis_name := cp2k_basis config in
  run matrix_multipole <-
    (if String.eqb multipole "overlap" then
       run m <- call_kernel path path_hdf5 basis_name multipole;
       retM (Some m)
     else if String.eqb multipole "dipole" then
       run super_matrix <- call_kernel path path_hdf5 basis_name multipole;
       run dim <- liftR (shape1 super_matrix);
       run m <- liftR (reshape super_matrix [4; dim; dim]%nat);
       retM (Some m)
     else if String.eqb multipole "quadrupole" then
       run super_matrix <- call_kernel path path_hdf5 basis_name multipole;
       run dim <- liftR (shape1 super_matrix);
       run m <- liftR (reshape super_matrix [10; dim; dim]%nat);
       retM (Some m)
     else retM None);
  run_ os_remove path;
  match matrix_multipole with
  | Some m => retM m
  | None => liftR (Err UnboundLocalError)
  end.

(** [get_multipole_matrix(config, inp, multipole)] *)
Definition get_multipole_matrix (config : DictConfig) (inp : PointInput)
    (multipole : string) : M Disk ndarray :=
  let root := join (project_name config)
                ["multipole";
                 "point_" +:+ pretty (inp_i inp + enumerate_from config)%Z] in
  let path_hdf5 := path_hdf5 config in
  let path_multipole_hdf5 := join root [multipole] in
  run found <- search_multipole_in_hdf5 path_hdf5 path_multipole_hdf5;
  match found with
  | Some matrix_multipole => retM matrix_multipole
  | None =>
      run matrix_multipole <- compute_matrix_multipole (inp_mol inp) config multipole;
      run_ store_arrays_in_hdf5 path_hdf5 path_multipole_hdf5 matrix_multipole
                                Float32;
      retM matrix_multipole
  end.

End Cache.

(** ** Specification-side definitions *)

Section SpecSide.
Local Open Scope R_scope.

(** The matrix element [c_i^T . D . c_j], where [c_i] and [c_j] are the
    columns [i] and [j] of [coeffs] and [n] is the number of basis
    functions. *)
Definition transition_dipole (n : nat) (coeffs D : Matrix) (i j : nat) : R :=
  sum_n n (fun a =>
    sum_n n (fun b => entry coeffs a i * entry D a b * entry coeffs b j)).

(** The transition record of the pair (i, j) for three dipole
    matrices. *)
Definition transition_record (n : nat) (es : Vector) (coeffs : Matrix)
    (Dx Dy Dz : Matrix) (i j : Z) : Oscillator :=
  let dE := nth (Z.to_nat j) es 0 - nth (Z.to_nat i) es 0 in
  let dx := transition_dipole n coeffs Dx (Z.to_nat i) (Z.to_nat j) in
  let dy := transition_dipole n coeffs Dy (Z.to_nat i) (Z.to_nat j) in
  let dz := transition_dipole n coeffs Dz (Z.to_nat i) (Z.to_nat j) in
  mkOscillator i j dE (2 / 3 * dE * (dx ^ 2 + dy ^ 2 + dz ^ 2)) [dx; dy; dz].

(** Symmetry of the leading [n] x [n] block. *)
Definition is_symmetric (n : nat) (M : Matrix) : Prop :=
  forall a b, (a < n)%nat -> (b < n)%nat -> entry M a b = entry M b a.

(** The oscillator of frame [t], initial state (group) [g] and final
    state [k] of the gathered results. *)
Definition no_oscillator : Oscillator := mkOscillator 0 0 0 0 [].
Definition osc_at (oscillators : list (list (list Oscillator)))
    (t g k : nat) : Oscillator :=
  nth k (nth g (nth t oscillators []) []) no_oscillator.

(** Gathered results of [T] frames, each with [G] groups, group [g]
    holding [K g] final states. *)
Definition regular (T G : nat) (K : nat -> nat)
    (oscillators : list (list (list Oscillator))) : Prop :=
  length oscillators = T
  /\ Forall (fun frame =>
       length frame = G
       /\ forall g, (g < G)%nat -> length (nth g frame []) = K g)
     oscillators.

(** The aggregation as the spec words it: sum over the groups, mean
    over the final states of the group, sum over the frames. *)
Definition spec_intensity (T G : nat) (K : nat -> nat)
    (oscillators : list (list (list Oscillator)))
    (kernel : R -> R -> R -> R) (width x : R) : R :=
  sum_n G (fun g =>
    sum_n (K g) (fun k =>
      sum_n T (fun t =>
        fij (osc_at oscillators t g k)
        * kernel x (deltaE (osc_at oscillators t g k)) width))
    / INR (K g)).

(** Sum over the groups, sum over the final states of the group, mean
    over the frames. *)
Definition frame_averaged_intensity (T G : nat) (K : nat -> nat)
    (oscillators : list (list (list Oscillator)))
    (kernel : R -> R -> R -> R) (width x : R) : R :=
  sum_n G (fun g =>
    sum_n (K g) (fun k =>
      sum_n T (fun t =>
        fij (osc_at oscillators t g k)
        * kernel x (deltaE (osc_at oscillators t g k)) width)
      / INR T)).

(** The unit roundoff of binary64, 2^-53. *)
Definition unit_roundoff : R := / 9007199254740992.

(** What is assumed of the rounding to binary64: it is monotone, and
    away from underflow and overflow the rounded value is off by at
    most one unit roundoff, relatively. *)
Definition binary64_rounding (fl : R -> R) : Prop :=
  (forall x y, x <= y -> fl x <= fl y)
  /\ (forall x, Rabs (fl x - x) <= unit_roundoff * Rabs x).

(** The quotient whose [int()] is the number of grid points, as the
    code computes it. *)
Definition computed_ratio (fl : R -> R) (h width e0 e1 : R) : R :=
  fl (fl (fl (e1 / h) - fl (e0 / h)) / fl (width / h)).


(** The events of running the per-frame jobs in order. *)
Definition frame_events (jobs : list (nat * list AtomXYZ)) : list event :=
  map (fun p => ComputeFrame (fst p)) jobs.


(** The row of the transition table for one oscillator. *)
Definition transition_line (pc : PhysicalConstants) (osc : Oscillator) : line :=
  TransitionLine (initialS osc) (finalS osc) (deltaE osc * h2ev pc)
    (deltaE osc * 2.19475e5 * 1e7) (fij osc)
    (nth 0 (components osc) 0) (nth 1 (components osc) 0)
    (nth 2 (components osc) 0).

(** The scratch file that the next call of [compute_matrix_multipole]
    writes. *)
Definition scratch_file (uuid4 : nat -> string) (config : DictConfig)
    (d : Disk) : string :=
  join (scratch_path config) ["molecule_" +:+ uuid4 (uuid_count d) +:+ ".xyz"].

(** The call that the integral library receives. *)
Definition kernel_call (uuid4 : nat -> string) (config : DictConfig)
    (multipole : string) (d : Disk) : string * string * string * string :=
  (scratch_file uuid4 config d, path_hdf5 config, cp2k_basis config, multipole).

(** The node of the HDF5 file for a point and a multipole kind. *)
Definition multipole_key (config : DictConfig) (inp : PointInput)
    (multipole : string) : string :=
  join (join (project_name config)
          ["multipole";
           "point_" +:+ pretty (inp_i inp + enumerate_from config)%Z])
       [multipole].

Definition known_multipole (multipole : string) : Prop :=
  multipole = "overlap"%string \/ multipole = "dipole"%string
  \/ multipole = "quadrupole"%string.

(** What becomes of the tensor returned by the library for a known
    kind: kept as it is for the overlap, cut into 4 or 10 planes for
    the dipole and the quadrupole. *)
Definition arrange (multipole : string) (a : ndarray) : result ndarray :=
  if String.eqb multipole "overlap" then Ok a
  else if String.eqb multipole "dipole"
       then do dim <- shape1 a; reshape a [4; dim; dim]%nat
       else do dim <- shape1 a; reshape a [10; dim; dim]%nat.

End SpecSide.

(** ** Example data *)

Section Examples.
Local Open Scope R_scope.

Definition ex_identity2 : Matrix := [[1; 0]; [0; 1]].

(** An integral routine whose packed triangle is that of [[0 1] [1 0]]. *)
Definition ex_packed
    : list AtomXYZ -> unit -> R * R * R -> nat * nat * nat -> Vector :=
  fun _ _ _ _ => [0; 1; 0].

(** Two orbitals with energies 0 and 1 and unit coefficient vectors. *)
Definition ex_mos : nat -> result (Vector * Matrix) :=
  fun _ => Ok ([0; 1], ex_identity2).

Definition ex_getmass : string -> result Z := fun _ => Ok 1%Z.

(** An expansion of packed triangles that accepts every array. *)
Definition ex_triang2mtx : Vector -> nat -> result Matrix :=
  fun xs dim => Ok (full_symmetric xs dim).

(** One hydrogen atom at the origin. *)
Definition ex_atom : list AtomXYZ := [mkAtom "H" (0, 0, 0)].

(** Operations whose results need no rounding. *)
Definition no_rounding : R -> R := fun x => x.

(** Operations whose results all come out shorter by one unit
    roundoff. *)
Definition shortening : R -> R := fun x => x * (1 - unit_roundoff).

(** Two frames, one initial state, one final state; the same
    transition of strength 1 at gap 0 in both frames. *)
Definition ex_two_frames : list (list (list Oscillator)) :=
  [[[mkOscillator 0 1 0 1 [0; 0; 0]]]; [[mkOscillator 0 1 0 1 [0; 0; 0]]]].

(** A per-frame job that finds no transition, and an empty world. *)
Definition ex_schedule : nat -> list AtomXYZ -> result (list (list Oscillator)) :=
  fun _ _ => Ok [].
Definition ex_world : World := mkWorld ∅ [].

(** Two frames with one transition 0 -> 1 each, of strengths 1 and 2. *)
Definition ex_first : Oscillator := mkOscillator 0 1 1 1 [0; 0; 0].
Definition ex_second : Oscillator := mkOscillator 0 1 1 2 [0; 0; 0].
Definition ex_sweep : list (list (list Oscillator)) :=
  [[[ex_first]]; [[ex_second]]].

(** A project whose HDF5 file exists and holds no multipole yet. *)
Definition ex_config : DictConfig :=
  mkConfig "Cd" 0 "test.hdf5" "scratch" "DZVP-MOLOPT-SR-GTH".
Definition ex_input : PointInput := mkInput 0 [].
Definition ex_disk : Disk := mkDisk (<["test.hdf5"%string := ∅]> ∅) ∅ [] 0.
Definition ex_uuid4 : nat -> string := fun n => pretty n.

(** The binary64 number nearest to 0.1, and a library double that
    returns a 1 x 1 tensor holding it. *)
Definition tenth64 : spec_float :=
  S754_finite false 7205759403792794 (-56).
Definition ex_kernel : list AtomXYZ -> string -> string -> result ndarray :=
  fun _ _ _ => Ok (mkArray Float64 [1; 1]%nat [tenth64]).

(** A file that holds one binary32 dataset of shape 1 x 1. *)
Definition ex_dataset32 : ndarray :=
  mkArray Float32 [1; 1]%nat [S754_zero false].
Definition ex_disk32 : Disk :=
  mkDisk (<["test.hdf5"%string := <["overlap"%string := ex_dataset32]> ∅]> ∅)
         ∅ [] 0.

(** A library double that always fails. *)
Definition ex_failing_kernel
    : list AtomXYZ -> string -> string -> result ndarray :=
  fun _ _ _ => Err KernelError.

End Examples.

(** ** Further functions of the sources *)

Section Further.
Local Open Scope R_scope.

(** [change_mol_units(mol, factor)] *)
Definition change_mol_units (mol : list AtomXYZ) (factor : R) : list AtomXYZ :=
  map (fun atom =>
         let '(x, y, z) := xyz atom in
         mkAtom (symbol atom) (x * factor, y * factor, z * factor))
      mol.

(** [dict_cp2k_order_sphericals]: the ordering of the spherical shells. *)
Definition dict_cp2k_order_sphericals : gmap string (list string) :=
  <["s" := ["s"]]>
    (<["p" := ["py"; "pz"; "px"]]>
       (<["d" := ["d-2"; "d-1"; "d0"; "d+1"; "d+2"]]>
          (<["f" := ["f-3"; "f-2"; "f-1"; "f0"; "f+1"; "f+2"; "f+3"]]> ∅)))%string.

(** One entry of a basis format: a number of contracted functions, or
    the list of the sizes of the contractions. *)
Inductive shell_format : Type :=
| Count (n : Z)
| Contraction (ns : list Z).

(** [itertools.repeat(x, n)], consumed as a list: nothing when n <= 0. *)
Definition py_repeat {A} (x : A) (n : Z) : list A := repeat x (Z.to_nat n).

(** [funSlabels(data, label, fs)] *)
Definition funSlabels (data : gmap string (list string)) (label : string)
    (fs : shell_format) : result (list (list string)) :=
  let fs := match fs with
            | Contraction ns => fold_left Z.add ns 0%Z
            | Count n => n
            end in
  match data !! label with
  | Some labels => Ok (py_repeat labels fs)
  | None => Err KeyError
  end.

(** [calc_orbital_Slabels(fss)] *)
Definition calc_orbital_Slabels (fss : list shell_format)
    : result (list (list string)) :=
  let angular_momentum := ["s"; "p"; "d"; "f"; "g"]%string in
  do xss <- mapR (fun '(label, fs) =>
                    funSlabels dict_cp2k_order_sphericals label fs)
                 (combine angular_momentum fss);
  Ok (concat xss).

(** The count of one atom in [number_spherical_functions_per_atom]:
    [sum(len(x) for x in calc_orbital_Slabels(fss))]. *)
Definition number_spherical_functions (fss : list shell_format) : result nat :=
  do ys <- calc_orbital_Slabels fss;
  Ok (fold_left Nat.add (map (fun x => length x) ys) 0%nat).

(** [JobFiles = namedtuple("JobFiles",
      ("get_xyz", "get_inp", "get_out", "get_MO"))] *)
Record JobFiles : Type := mkJobFiles {
  get_xyz : string;
  get_inp : string;
  get_out : string;
  get_MO : string
}.

(** [create_file_names(work_dir, i)] of [scripts/workflow_ET.py] *)
Definition create_file_names (work_dir : string) (i : Z) : JobFiles :=
  let file_xyz := join work_dir ["coordinates_" +:+ pretty i +:+ ".xyz"] in
  let file_inp := join work_dir ["point_" +:+ pretty i +:+ ".inp"] in
  let file_out := join work_dir ["point_" +:+ pretty i +:+ ".out"] in
  let file_MO := join work_dir ["mo_coeff_" +:+ pretty i +:+ ".out"] in
  mkJobFiles file_xyz file_inp file_out file_MO.

End Further.

(** ** Further specification-side definitions *)

Section FurtherSpecSide.
Local Open Scope R_scope.

Definition identity_matrix (n : nat) : Matrix :=
  mk_matrix n n (fun i j => if Nat.eqb i j then 1 else 0).

(** The molecule moved by the vector [v]. *)
Definition translate (v : R * R * R) (atoms : list AtomXYZ) : list AtomXYZ :=
  map (fun a =>
         let '(x, y, z) := xyz a in
         let '(vx, vy, vz) := v in
         mkAtom (symbol a) (x + vx, y + vy, z + vz))
      atoms.

Definition total_mass (mass : string -> Z) (atoms : list AtomXYZ) : R :=
  py_sum (map (fun a => IZR (mass (symbol a))) atoms).

(** The mean of the positions weighted with the masses. *)
Definition weighted_mean (mass : string -> Z) (atoms : list AtomXYZ)
    : R * R * R :=
  let mrs := map (fun a => let '(x, y, z) := xyz a in
                           let m := IZR (mass (symbol a)) in
                           (m * x, m * y, m * z)) atoms in
  (py_sum (map (fun r => fst (fst r)) mrs) / total_mass mass atoms,
   py_sum (map (fun r => snd (fst r)) mrs) / total_mass mass atoms,
   py_sum (map (fun r => snd r) mrs) / total_mass mass atoms).

(** The lookup [getmass] finds the mass [mass] of every atom. *)
Definition masses_known (getmass : string -> result Z) (mass : string -> Z)
    (atoms : list AtomXYZ) : Prop :=
  forall a, In a atoms -> getmass (symbol a) = Ok (mass (symbol a)).

(** The position along an axis of length [m] that the index [i], taken
    in [-m, m), refers to. *)
Definition wrap_index (m : nat) (i : Z) : nat :=
  Z.to_nat (if (i <? 0)%Z then i + Z.of_nat m else i).

Definition index_in_range (m : nat) (i : Z) : Prop :=
  (- Z.of_nat m <= i < Z.of_nat m)%Z.

(** The record of the transition between the orbitals that [i] and [j]
    refer to, labelled with the indices as given. *)
Definition labelled_record (n m : nat) (es : Vector) (coeffs : Matrix)
    (Dx Dy Dz : Matrix) (i j : Z) : Oscillator :=
  let r := transition_record n es coeffs Dx Dy Dz
             (Z.of_nat (wrap_index m i)) (Z.of_nat (wrap_index m j)) in
  mkOscillator i j (deltaE r) (fij r) (components r).

(** The frames with an index that [every] divides. *)
Definition divisible_frames {A} (every : Z) (ims : list (nat * A))
    : list (nat * A) :=
  List.filter (fun p => (Z.of_nat (fst p) mod every =? 0)%Z) ims.

(** The part of a key that depends on the project only. *)
Definition key_prefix (config : DictConfig) : string :=
  let base := join2 (project_name config) "multipole" in
  if String.eqb base EmptyString || ends_with_sep base
  then base +:+ "point_"
  else base +:+ "/" +:+ "point_".

(** The strings in which the character [c] does not occur. *)
Definition without (c : ascii) (s : string) : Prop :=
  forall s1 s2, s <> s1 +:+ String c s2.

Definition no_slash (s : string) : Prop := without "/"%char s.

(** The directory part of the names that [os.path.join] builds under
    [work_dir]. *)
Definition dir_prefix (work_dir : string) : string :=
  if String.eqb work_dir EmptyString || ends_with_sep work_dir
  then work_dir
  else work_dir +:+ "/".

(** The four file names of a point. *)
Definition job_files (f : JobFiles) : list string :=
  [get_xyz f; get_inp f; get_out f; get_MO f].

(** The number of contracted functions of one kind of shell. *)
Definition shell_total (fs : shell_format) : nat :=
  match fs with
  | Count n => Z.to_nat n
  | Contraction ns => Z.to_nat (fold_right Z.add 0%Z ns)
  end.

(** The number of spherical functions of the shells [fss], the first
    of them of angular momentum [l]: 2 l + 1 for each function. *)
Fixpoint spherical_count_from (l : nat) (fss : list shell_format) : nat :=
  match fss with
  | [] => 0
  | fs :: rest => shell_total fs * (2 * l + 1) + spherical_count_from (S l) rest
  end.

Definition spherical_count (fss : list shell_format) : nat :=
  spherical_count_from 0 fss.

End FurtherSpecSide.

(** * Properties *)

(** ** Generic facts *)

Lemma mapR_ok {A B} (f : A -> result B) (g : A -> B) (xs : list A) :
  (forall x, In x xs -> f x = Ok (g x)) -> mapR f xs = Ok (map g xs).
Proof.
  induction xs as [|x xs IH]; intros H; simpl; [reflexivity|].
  rewrite (H x) by (left; reflexivity). simpl.
  rewrite IH by (intros y Hy; apply H; right; exact Hy).
  reflexivity.
Qed.

Lemma mapR_first_error {A B} (f : A -> result B) (xs : list A) e :
  (forall x, In x xs -> (exists y, f x = Ok y) \/ f x = Err e) ->
  (exists x, In x xs /\ f x = Err e) ->
  mapR f xs = Err e.
Proof.
  induction xs as [|x xs IH]; intros Hall [bad [Hin Hbad]]; [destruct Hin|].
  simpl. destruct (Hall x (or_introl eq_refl)) as [[y Hy]|Hx].
  - rewrite Hy. simpl. rewrite IH; [reflexivity | |].
    + intros z Hz. apply Hall. now right.
    + destruct Hin as [<-|Hin]; [congruence|]. now exists bad.
  - now rewrite Hx.
Qed.

Lemma bindM_ok {S A B} (m : M S A) (k : A -> M S B) s s' a :
  m s = (s', Ok a) -> bindM m k s = k a s'.
Proof. intros H. unfold bindM. now rewrite H. Qed.

Lemma bindM_err {S A B} (m : M S A) (k : A -> M S B) s s' e :
  m s = (s', Err e) -> bindM m k s = (s', Err e).
Proof. intros H. unfold bindM. now rewrite H. Qed.

Section SumFacts.
Local Open Scope R_scope.

Lemma sum_n_ext n f g :
  (forall k, (k < n)%nat -> f k = g k) -> sum_n n f = sum_n n g.
Proof.
  induction n as [|n IH]; intros H; simpl; [reflexivity|].
  rewrite IH by (intros k Hk; apply H; lia).
  rewrite (H n) by lia. reflexivity.
Qed.

Lemma sum_n_zero n : sum_n n (fun _ => 0) = 0.
Proof. induction n as [|n IH]; simpl; [reflexivity | rewrite IH; ring]. Qed.

Lemma sum_n_all_zero n f :
  (forall k, (k < n)%nat -> f k = 0) -> sum_n n f = 0.
Proof.
  intros H. rewrite <- (sum_n_zero n). apply sum_n_ext. exact H.
Qed.

Lemma sum_n_plus n f g :
  sum_n n (fun k => f k + g k) = sum_n n f + sum_n n g.
Proof. induction n as [|n IH]; simpl; [ring | rewrite IH; ring]. Qed.

Lemma sum_n_scal n c f : c * sum_n n f = sum_n n (fun k => c * f k).
Proof. induction n as [|n IH]; simpl; [ring | rewrite <- IH; ring]. Qed.

Lemma sum_n_exchange n m (f : nat -> nat -> R) :
  sum_n n (fun a => sum_n m (fun b => f a b))
  = sum_n m (fun b => sum_n n (fun a => f a b)).
Proof.
  induction n as [|n IH]; simpl.
  - symmetry. apply sum_n_zero.
  - rewrite IH. symmetry. apply sum_n_plus.
Qed.

Lemma fold_left_Rplus_acc xs a : fold_left Rplus xs a = a + fold_left Rplus xs 0.
Proof.
  revert a. induction xs as [|x xs IH]; intros a; simpl; [ring|].
  rewrite (IH (a + x)), (IH (0 + x)). ring.
Qed.

Lemma py_sum_cons x xs : py_sum (x :: xs) = x + py_sum xs.
Proof.
  unfold py_sum. simpl. rewrite fold_left_Rplus_acc. ring.
Qed.

Lemma py_sum_nil : py_sum [] = 0.
Proof. reflexivity. Qed.

Lemma py_sum_app xs ys : py_sum (xs ++ ys) = py_sum xs + py_sum ys.
Proof.
  induction xs as [|x xs IH]; simpl.
  - rewrite py_sum_nil. ring.
  - rewrite !py_sum_cons, IH. ring.
Qed.

Lemma py_sum_map_seq (f : nat -> R) n :
  py_sum (map f (seq 0 n)) = sum_n n f.
Proof.
  induction n as [|n IH]; [reflexivity|].
  rewrite seq_S, map_app, py_sum_app, IH. simpl.
  rewrite py_sum_cons, py_sum_nil. ring.
Qed.

Lemma nth_map_lt {A B} (f : A -> B) (l : list A) k d d' :
  (k < length l)%nat -> nth k (map f l) d = f (nth k l d').
Proof.
  revert k. induction l as [|x l IH]; intros k Hk; simpl in *; [lia|].
  destruct k; [reflexivity | apply IH; lia].
Qed.

Lemma py_sum_nth (xs : list R) :
  py_sum xs = sum_n (length xs) (fun k => nth k xs 0).
Proof.
  rewrite <- py_sum_map_seq. f_equal.
  apply nth_ext with (d := 0) (d' := 0).
  - now rewrite length_map, length_seq.
  - intros k Hk. rewrite (nth_map_lt _ _ _ _ 0%nat) by now rewrite length_seq.
    now rewrite seq_nth.
Qed.

End SumFacts.

(** ** Indexing and products of well-shaped arrays *)

Section MatrixFacts.
Local Open Scope R_scope.

Lemma py_index_in_range n i :
  (0 <= i < Z.of_nat n)%Z -> py_index n i = Ok (Z.to_nat i).
Proof.
  intros [H0 H1]. unfold py_index.
  destruct (Z.leb_spec 0 i); [|lia].
  destruct (Z.ltb_spec i (Z.of_nat n)); [|lia].
  reflexivity.
Qed.

Lemma has_shape_ncols r c M :
  has_shape r c M -> (0 < r)%nat -> ncols M = c.
Proof.
  intros [Hr Hc] Hpos. destruct M as [|row M]; simpl in *; [lia|].
  now inversion Hc.
Qed.

Lemma has_shape_is_rect r c M :
  has_shape r c M -> is_rect M = true.
Proof.
  intros H. unfold is_rect. apply forallb_forall. intros row Hin.
  apply Nat.eqb_eq.
  destruct H as [Hr Hc]. rewrite List.Forall_forall in Hc.
  rewrite (Hc row Hin).
  destruct M as [|r0 M]; [destruct Hin|]. simpl.
  symmetry. apply Hc. now left.
Qed.

Lemma get_column_in_range r c M i :
  has_shape r c M -> (0 < r)%nat -> (0 <= i < Z.of_nat c)%Z ->
  get_column M i = Ok (map (fun row => nth (Z.to_nat i) row 0) M).
Proof.
  intros HM Hr Hi. unfold get_column.
  rewrite (has_shape_ncols r c M HM Hr), py_index_in_range by exact Hi.
  reflexivity.
Qed.

Lemma get_item_in_range (v : Vector) i :
  (0 <= i < Z.of_nat (length v))%Z ->
  get_item v i = Ok (nth (Z.to_nat i) v 0).
Proof.
  intros Hi. unfold get_item. now rewrite py_index_in_range.
Qed.

Lemma column_nth (M : Matrix) k a :
  (a < length M)%nat ->
  nth a (map (fun row => nth k row 0) M) 0 = entry M a k.
Proof.
  intros Ha. unfold entry. now rewrite (nth_map_lt _ _ _ _ []).
Qed.

(** [np.dot(css_i, np.dot(mtx, css_j))] on the columns [i] and [j] of
    a well-shaped coefficient matrix is the double sum
    [transition_dipole]. *)
Lemma dipole_component n m (coeffs D : Matrix) i j :
  has_shape n m coeffs -> has_shape n n D -> (0 < n)%nat ->
  (do t <- np_dot_mv D (map (fun row => nth j row 0) coeffs);
   np_dot_vv (map (fun row => nth i row 0) coeffs) t)
  = Ok (transition_dipole n coeffs D i j).
Proof.
  intros Hc HD Hn.
  pose proof Hc as [Hlen _]. pose proof HD as [HlenD _].
  unfold np_dot_mv.
  rewrite (has_shape_is_rect _ _ _ HD), (has_shape_ncols _ _ _ HD Hn).
  rewrite length_map, Hlen, Nat.eqb_refl. simpl.
  unfold np_dot_vv. rewrite !length_map, Hlen, HlenD, Nat.eqb_refl.
  f_equal. unfold transition_dipole.
  apply sum_n_ext. intros a Ha.
  rewrite column_nth by lia.
  rewrite (nth_map_lt _ _ _ _ []) by lia.
  rewrite sum_n_scal. apply sum_n_ext. intros b Hb.
  rewrite column_nth by lia. unfold entry. ring.
Qed.

End MatrixFacts.

(** ** The transition record *)

Section OscillatorFacts.
Local Open Scope R_scope.

Lemma oscillator_strength_three n m (coeffs Dx Dy Dz : Matrix) i j energy :
  has_shape n m coeffs -> (0 < n)%nat ->
  has_shape n n Dx -> has_shape n n Dy -> has_shape n n Dz ->
  oscillator_strength (map (fun row => nth i row 0) coeffs)
                      (map (fun row => nth j row 0) coeffs)
                      energy [Dx; Dy; Dz]
  = Ok (2 / 3 * energy
        * (transition_dipole n coeffs Dx i j ^ 2
           + transition_dipole n coeffs Dy i j ^ 2
           + transition_dipole n coeffs Dz i j ^ 2),
        [transition_dipole n coeffs Dx i j;
         transition_dipole n coeffs Dy i j;
         transition_dipole n coeffs Dz i j]).
Proof.
  intros Hc Hn Hx Hy Hz. unfold oscillator_strength. simpl mapR.
  rewrite (dipole_component n m coeffs Dx i j Hc Hx Hn).
  rewrite (dipole_component n m coeffs Dy i j Hc Hy Hn).
  rewrite (dipole_component n m coeffs Dz i j Hc Hz Hn).
  simpl. do 2 f_equal. unfold py_sum. simpl. ring.
Qed.

(** What one turn of the loop over the final states computes. *)
Lemma transition_body n m (es : Vector) (coeffs Dx Dy Dz : Matrix) (i j : Z) :
  has_shape n m coeffs -> (0 < n)%nat -> length es = m ->
  has_shape n n Dx -> has_shape n n Dy -> has_shape n n Dz ->
  (0 <= j < Z.of_nat m)%Z ->
  (do css_j <- get_column coeffs j;
   do energy_j <- get_item es j;
   let deltaE := energy_j - nth (Z.to_nat i) es 0 in
   do '(fij, components) <-
      oscillator_strength (map (fun row => nth (Z.to_nat i) row 0) coeffs)
                          css_j deltaE [Dx; Dy; Dz];
   Ok (mkOscillator i j deltaE fij components))
  = Ok (transition_record n es coeffs Dx Dy Dz i j).
Proof.
  intros Hc Hn Hes Hx Hy Hz Hj.
  rewrite (get_column_in_range n m coeffs j Hc Hn Hj).
  rewrite get_item_in_range by (rewrite Hes; exact Hj).
  simpl bindR.
  rewrite (oscillator_strength_three n m coeffs Dx Dy Dz _ _ _ Hc Hn Hx Hy Hz).
  reflexivity.
Qed.

(** The calculator called for a single final state. *)
Lemma single_transition n m (es : Vector) (coeffs Dx Dy Dz : Matrix) (i j : Z) :
  has_shape n m coeffs -> (0 < n)%nat -> length es = m ->
  has_shape n n Dx -> has_shape n n Dy -> has_shape n n Dz ->
  (0 <= i < Z.of_nat m)%Z -> (0 <= j < Z.of_nat m)%Z ->
  compute_oscillator_strength es coeffs [Dx; Dy; Dz] i [j]
  = Ok [transition_record n es coeffs Dx Dy Dz i j].
Proof.
  intros Hc Hn Hes Hx Hy Hz Hi Hj.
  unfold compute_oscillator_strength.
  rewrite (get_column_in_range n m coeffs i Hc Hn Hi).
  rewrite get_item_in_range by (rewrite Hes; exact Hi).
  simpl bindR.
  pose proof (transition_body n m es coeffs Dx Dy Dz i j Hc Hn Hes Hx Hy Hz Hj)
    as Hbody.
  cbv zeta in Hbody. rewrite Hbody. reflexivity.
Qed.

(** C3.  For well-shaped frame data (coefficients n x m, energies of
    length m, three n x n dipole matrices) and in-range state indices,
    the calculator returns, for every requested final state, the record
    with energy gap es[finalS] - es[initialS] (unclamped) and oscillator
    strength (2/3) . gap . sum over the three dipole matrices of
    (c_i^T D_u c_j)^2, together with the three matrix elements. *)
Theorem compute_oscillator_strength_record
    n m (es : Vector) (coeffs Dx Dy Dz : Matrix) (i : Z) (fs : list Z) :
  has_shape n m coeffs -> (0 < n)%nat -> length es = m ->
  has_shape n n Dx -> has_shape n n Dy -> has_shape n n Dz ->
  (0 <= i < Z.of_nat m)%Z ->
  Forall (fun j => (0 <= j < Z.of_nat m)%Z) fs ->
  compute_oscillator_strength es coeffs [Dx; Dy; Dz] i fs
  = Ok (map (transition_record n es coeffs Dx Dy Dz i) fs).
Proof.
  intros Hc Hn Hes Hx Hy Hz Hi Hfs.
  unfold compute_oscillator_strength.
  rewrite (get_column_in_range n m coeffs i Hc Hn Hi).
  rewrite get_item_in_range by (rewrite Hes; exact Hi).
  simpl bindR. apply mapR_ok. intros j Hj.
  rewrite List.Forall_forall in Hfs.
  apply (transition_body n m es coeffs Dx Dy Dz i j Hc Hn Hes Hx Hy Hz).
  exact (Hfs j Hj).
Qed.

(** A frame with two orbitals, negative gap included. *)
Lemma compute_oscillator_strength_record_witness :
  compute_oscillator_strength [1; 0] [[1; 0]; [0; 1]]
    [[[0; 1]; [1; 0]]; [[0; 2]; [2; 0]]; [[1; 0]; [0; 1]]] 0%Z [1; 0]%Z
  = Ok (map (transition_record 2 [1; 0] [[1; 0]; [0; 1]]
               [[0; 1]; [1; 0]] [[0; 2]; [2; 0]] [[1; 0]; [0; 1]] 0%Z)
            [1; 0]%Z).
Proof.
  apply (compute_oscillator_strength_record 2 2);
    try (split; [reflexivity | repeat constructor]);
    try reflexivity; try lia.
  repeat constructor; lia.
Defined.

End OscillatorFacts.

(** ** The dipole matrices of a frame are symmetric *)

Section DipoleFacts.
Local Open Scope R_scope.

Lemma entry_mk_matrix r c f i j :
  (i < r)%nat -> (j < c)%nat -> entry (mk_matrix r c f) i j = f i j.
Proof.
  intros Hi Hj. unfold entry, mk_matrix.
  rewrite (nth_map_lt _ _ _ _ 0%nat) by now rewrite length_seq.
  rewrite (nth_map_lt _ _ _ _ 0%nat) by now rewrite length_seq.
  now rewrite !seq_nth.
Qed.

Lemma has_shape_mk_matrix r c f : has_shape r c (mk_matrix r c f).
Proof.
  split.
  - unfold mk_matrix. now rewrite length_map, length_seq.
  - apply List.Forall_forall. intros row Hin.
    unfold mk_matrix in Hin. apply in_map_iff in Hin as [i [<- _]].
    now rewrite length_map, length_seq.
Qed.

Lemma full_symmetric_ok (xs : Vector) dim :
  has_shape dim dim (full_symmetric xs dim)
  /\ is_symmetric dim (full_symmetric xs dim).
Proof.
  unfold full_symmetric. split; [apply has_shape_mk_matrix|].
  intros a b Ha Hb. rewrite !entry_mk_matrix by assumption.
  now rewrite Nat.min_comm, Nat.max_comm.
Qed.

Lemma triang2mtx_ok (triang2mtx : Vector -> nat -> result Matrix)
    (xs : Vector) dim :
  expands_triangle triang2mtx ->
  length xs = (dim * (dim + 1) / 2)%nat ->
  exists M, triang2mtx xs dim = Ok M /\ has_shape dim dim M
            /\ is_symmetric dim M.
Proof.
  intros Hexp Hlen. exists (full_symmetric xs dim).
  split; [now apply Hexp | apply full_symmetric_ok].
Qed.

Lemma ex_triang2mtx_expands : expands_triangle ex_triang2mtx.
Proof. intros xs dim _. reflexivity. Qed.

Lemma np_dot_mm_ok r k c (A B : Matrix) :
  has_shape r k A -> has_shape k c B -> (0 < r)%nat -> (0 < k)%nat ->
  np_dot_mm A B
  = Ok (mk_matrix r c (fun i j => sum_n k (fun l => entry A i l * entry B l j))).
Proof.
  intros HA HB Hr Hk. unfold np_dot_mm.
  rewrite (has_shape_is_rect _ _ _ HA), (has_shape_is_rect _ _ _ HB).
  rewrite (has_shape_ncols _ _ _ HA Hr), (has_shape_ncols _ _ _ HB Hk).
  unfold nrows. destruct HA as [-> _]. destruct HB as [-> _].
  now rewrite Nat.eqb_refl.
Qed.

Lemma transpose_shape r c (T : Matrix) :
  has_shape r c T -> (0 < r)%nat -> has_shape c r (transpose T).
Proof.
  intros HT Hr. unfold transpose.
  rewrite (has_shape_ncols _ _ _ HT Hr). unfold nrows.
  destruct HT as [-> _]. apply has_shape_mk_matrix.
Qed.

Lemma transpose_entry r c (T : Matrix) i j :
  has_shape r c T -> (0 < r)%nat -> (i < c)%nat -> (j < r)%nat ->
  entry (transpose T) i j = entry T j i.
Proof.
  intros HT Hr Hi Hj. unfold transpose.
  rewrite (has_shape_ncols _ _ _ HT Hr). unfold nrows.
  destruct HT as [-> _]. now rewrite entry_mk_matrix.
Qed.

(** [T . (M . T^t)] is well defined for an s x c matrix [T] and a
    c x c matrix [M], and symmetric when [M] is. *)
Lemma transform2Spherical_ok s c (T M : Matrix) :
  has_shape s c T -> has_shape c c M -> (0 < s)%nat -> (0 < c)%nat ->
  is_symmetric c M ->
  exists S, transform2Spherical T M = Ok S /\ has_shape s s S
            /\ is_symmetric s S.
Proof.
  intros HT HM Hs Hc Hsym. unfold transform2Spherical.
  rewrite (np_dot_mm_ok c c s M (transpose T) HM (transpose_shape _ _ _ HT Hs) Hc Hc).
  simpl bindR.
  rewrite (np_dot_mm_ok s c s T _ HT (has_shape_mk_matrix _ _ _) Hs Hc).
  eexists. split; [reflexivity|]. split; [apply has_shape_mk_matrix|].
  intros a b Ha Hb. rewrite !entry_mk_matrix by assumption.
  transitivity
    (sum_n c (fun l => sum_n c (fun l0 =>
       entry T a l * entry M l l0 * entry T b l0))).
  { apply sum_n_ext. intros l Hl. rewrite entry_mk_matrix by assumption.
    rewrite sum_n_scal. apply sum_n_ext. intros l0 Hl0.
    rewrite (transpose_entry s c T l0 b HT Hs Hl0 Hb). ring. }
  rewrite sum_n_exchange.
  apply sum_n_ext. intros l Hl. rewrite entry_mk_matrix by assumption.
  rewrite sum_n_scal. apply sum_n_ext. intros l0 Hl0.
  rewrite (transpose_entry s c T l0 a HT Hs Hl0 Ha).
  rewrite (Hsym l0 l Hl0 Hl). ring.
Qed.

(** For symmetric [D] the matrix element does not depend on the
    direction of the transition. *)
Lemma transition_dipole_swap n (coeffs D : Matrix) i j :
  is_symmetric n D ->
  transition_dipole n coeffs D i j = transition_dipole n coeffs D j i.
Proof.
  intros Hsym. unfold transition_dipole. rewrite sum_n_exchange.
  apply sum_n_ext. intros a Ha. apply sum_n_ext. intros b Hb.
  rewrite (Hsym b a Hb Ha). ring.
Qed.

End DipoleFacts.

(** ** Swapping the two states of a transition *)

Section SwapFacts.
Local Open Scope R_scope.

Variable CGFs : Type.
Variable calcMtxMultipoleP :
  list AtomXYZ -> CGFs -> R * R * R -> nat * nat * nat -> Vector.
Variable triang2mtx : Vector -> nat -> result Matrix.
Hypothesis triang2mtx_expands : expands_triangle triang2mtx.

Lemma calcDipoleCGFS_ok s c atoms dictCGFs rc (T : Matrix) :
  has_shape s c T -> (0 < s)%nat -> (0 < c)%nat ->
  (forall kw, In kw [(1, 0, 0); (0, 1, 0); (0, 0, 1)]%nat ->
     length (calcMtxMultipoleP atoms dictCGFs rc kw)
     = (c * (c + 1) / 2)%nat) ->
  exists Sx Sy Sz,
    calcDipoleCGFS CGFs calcMtxMultipoleP triang2mtx atoms dictCGFs rc T
    = Ok [Sx; Sy; Sz]
    /\ (has_shape s s Sx /\ is_symmetric s Sx)
    /\ (has_shape s s Sy /\ is_symmetric s Sy)
    /\ (has_shape s s Sz /\ is_symmetric s Sz).
Proof.
  intros HT Hs Hc Hlen. unfold calcDipoleCGFS.
  rewrite (has_shape_ncols _ _ _ HT Hs). simpl map. simpl mapR.
  destruct (triang2mtx_ok triang2mtx _ c triang2mtx_expands
              (Hlen (1, 0, 0)%nat ltac:(simpl; auto)))
    as (Mx & -> & HMx & SMx).
  destruct (triang2mtx_ok triang2mtx _ c triang2mtx_expands
              (Hlen (0, 1, 0)%nat ltac:(simpl; auto)))
    as (My & -> & HMy & SMy).
  destruct (triang2mtx_ok triang2mtx _ c triang2mtx_expands
              (Hlen (0, 0, 1)%nat ltac:(simpl; auto)))
    as (Mz & -> & HMz & SMz).
  simpl.
  destruct (transform2Spherical_ok s c T Mx HT HMx Hs Hc SMx) as (Sx & -> & HSx).
  destruct (transform2Spherical_ok s c T My HT HMy Hs Hc SMy) as (Sy & -> & HSy).
  destruct (transform2Spherical_ok s c T Mz HT HMz Hs Hc SMz) as (Sz & -> & HSz).
  simpl. exists Sx, Sy, Sz. auto.
Qed.

Lemma transition_record_swap n es coeffs Dx Dy Dz i j :
  is_symmetric n Dx -> is_symmetric n Dy -> is_symmetric n Dz ->
  let o_ij := transition_record n es coeffs Dx Dy Dz i j in
  let o_ji := transition_record n es coeffs Dx Dy Dz j i in
  deltaE o_ij = - deltaE o_ji
  /\ components o_ij = components o_ji
  /\ fij o_ij = - fij o_ji.
Proof.
  intros Hx Hy Hz. unfold transition_record. simpl.
  rewrite (transition_dipole_swap n coeffs Dx (Z.to_nat j) (Z.to_nat i) Hx).
  rewrite (transition_dipole_swap n coeffs Dy (Z.to_nat j) (Z.to_nat i) Hy).
  rewrite (transition_dipole_swap n coeffs Dz (Z.to_nat j) (Z.to_nat i) Hz).
  repeat split; ring.
Qed.

End SwapFacts.

(** The centre of mass of a molecule that has an atom, when the mass of
    each of its atoms is found. *)
Lemma compute_center_of_mass_ok (getmass : string -> result Z)
    (mass : string -> Z) (atoms : list AtomXYZ) :
  masses_known getmass mass atoms -> atoms <> [] ->
  compute_center_of_mass getmass atoms = Ok (weighted_mean mass atoms).
Proof.
  intros Hknown Hne. unfold compute_center_of_mass.
  rewrite (mapR_ok _ (fun a => mass (symbol a))) by exact Hknown.
  simpl bindR.
  rewrite (mapR_ok _ (fun a => let '(x, y, z) := xyz a in
                               let m := IZR (mass (symbol a)) in
                               (m * x, m * y, m * z))%R).
  2: { intros a Ha. rewrite (Hknown a Ha). simpl.
       now destruct (xyz a) as [[x y] z]. }
  simpl bindR. destruct atoms as [|a atoms]; [congruence|].
  unfold weighted_mean, total_mass. now rewrite !map_map.
Qed.

(** A failing mass lookup and a molecule without atoms. *)
Lemma compute_center_of_mass_unknown (getmass : string -> result Z)
    (atoms : list AtomXYZ) e :
  (forall a, In a atoms ->
     (exists m, getmass (symbol a) = Ok m) \/ getmass (symbol a) = Err e) ->
  (exists a, In a atoms /\ getmass (symbol a) = Err e) ->
  compute_center_of_mass getmass atoms = Err e.
Proof.
  intros Hall Hbad. unfold compute_center_of_mass.
  now rewrite (mapR_first_error _ _ e Hall Hbad).
Qed.

Lemma compute_center_of_mass_empty (getmass : string -> result Z) :
  compute_center_of_mass getmass [] = Err TypeError.
Proof. reflexivity. Qed.

(** C4 (amended).  For one frame whose molecule has an atom and only
    atoms of known mass, whose transformation matrix is s x c, whose
    packed integrals have c(c+1)/2 entries and whose coefficient matrix
    is s x m, computing the transition in both directions gives
    opposite energy gaps, equal dipole components and opposite
    oscillator strengths: f(i->j) = - f(j->i), that is
    f(i->j) . gap(j->i) = + f(j->i) . gap(i->j). *)
Theorem frame_state_swap
    (CGFs : Type)
    (calcMtxMultipoleP :
       list AtomXYZ -> CGFs -> R * R * R -> nat * nat * nat -> Vector)
    (triang2mtx : Vector -> nat -> result Matrix)
    (getmass : string -> result Z) (mass : string -> Z)
    (retrieve_mos : nat -> result (Vector * Matrix))
    (T : Matrix) (t : nat) (dictCGFs : CGFs) (atoms : list AtomXYZ)
    (s c m : nat) (es : Vector) (coeffs : Matrix) (i j : Z) :
  expands_triangle triang2mtx ->
  masses_known getmass mass atoms -> atoms <> [] ->
  retrieve_mos t = Ok (es, coeffs) ->
  has_shape s c T -> (0 < s)%nat -> (0 < c)%nat ->
  (forall rc kw, length (calcMtxMultipoleP atoms dictCGFs rc kw)
                 = (c * (c + 1) / 2)%nat) ->
  has_shape s m coeffs -> length es = m ->
  (0 <= i < Z.of_nat m)%Z -> (0 <= j < Z.of_nat m)%Z ->
  exists o_ij o_ji,
    calcOscillatorStrenghts CGFs calcMtxMultipoleP triang2mtx getmass
      retrieve_mos (Some (Ok T)) t dictCGFs atoms [i; j] [[j]; [i]]
    = Ok [[o_ij]; [o_ji]]
    /\ (initialS o_ij = i /\ finalS o_ij = j)
    /\ (initialS o_ji = j /\ finalS o_ji = i)
    /\ deltaE o_ij = (- deltaE o_ji)%R
    /\ components o_ij = components o_ji
    /\ fij o_ij = (- fij o_ji)%R
    /\ (fij o_ij * deltaE o_ji = fij o_ji * deltaE o_ij)%R.
Proof.
  intros Hexp Hmass Hatoms Hmos HT Hs Hc Hlen Hcoef Hes Hi Hj.
  unfold calcOscillatorStrenghts. rewrite Hmos. simpl bindR.
  rewrite (compute_center_of_mass_ok getmass mass atoms Hmass Hatoms).
  simpl bindR.
  destruct (calcDipoleCGFS_ok CGFs calcMtxMultipoleP triang2mtx Hexp s c
              atoms dictCGFs (weighted_mean mass atoms) T HT Hs Hc
              (fun kw _ => Hlen _ kw))
    as (Sx & Sy & Sz & -> & [HSx Symx] & [HSy Symy] & [HSz Symz]).
  simpl bindR. simpl combine. unfold mapR.
  rewrite (single_transition s m es coeffs Sx Sy Sz i j) by assumption.
  rewrite (single_transition s m es coeffs Sx Sy Sz j i) by assumption.
  simpl bindR.
  destruct (transition_record_swap s es coeffs Sx Sy Sz i j Symx Symy Symz)
    as (HdE & Hcomp & Hf).
  do 2 eexists. split; [reflexivity|].
  repeat split; try assumption.
  rewrite Hf, HdE. ring.
Qed.

Lemma frame_state_swap_witness :
  exists o_ij o_ji,
    calcOscillatorStrenghts unit ex_packed ex_triang2mtx ex_getmass ex_mos
      (Some (Ok ex_identity2)) 0 tt ex_atom [0; 1]%Z [[1]; [0]]%Z
    = Ok [[o_ij]; [o_ji]]
    /\ (initialS o_ij = 0%Z /\ finalS o_ij = 1%Z)
    /\ (initialS o_ji = 1%Z /\ finalS o_ji = 0%Z)
    /\ deltaE o_ij = (- deltaE o_ji)%R
    /\ components o_ij = components o_ji
    /\ fij o_ij = (- fij o_ji)%R
    /\ (fij o_ij * deltaE o_ji = fij o_ji * deltaE o_ij)%R.
Proof.
  apply (frame_state_swap unit ex_packed ex_triang2mtx ex_getmass
           (fun _ => 1%Z) ex_mos ex_identity2 0 tt ex_atom 2 2 2 [0; 1]%R
           ex_identity2 0%Z 1%Z);
    try reflexivity; try lia; try discriminate;
    try (split; [reflexivity | repeat constructor]).
  - exact ex_triang2mtx_expands.
  - intros a _. reflexivity.
Defined.

(** C4 as stated fails in its last identity: for a hydrogen atom,
    orbital energies 0 and 1 and the dipole matrix [[0 1] [1 0]] in all
    three directions, f(0->1) . gap(1->0) = -2 while
    - f(1->0) . gap(0->1) = 2. *)
Lemma frame_state_swap_sign_counterexample :
  exists o_ij o_ji,
    calcOscillatorStrenghts unit ex_packed ex_triang2mtx ex_getmass ex_mos
      (Some (Ok ex_identity2)) 0 tt ex_atom [0; 1]%Z [[1]; [0]]%Z
    = Ok [[o_ij]; [o_ji]]
    /\ (fij o_ij * deltaE o_ji <> - fij o_ji * deltaE o_ij)%R.
Proof.
  do 2 eexists. split.
  - cbv -[Rplus Rmult Rminus Ropp Rdiv Rinv IZR pow]. reflexivity.
  - cbv -[Rplus Rmult Rminus Ropp Rdiv Rinv IZR pow not]. lra.
Qed.

(** ** The triple aggregation of the cross section *)

Section IntensityFacts.
Local Open Scope R_scope.

Lemma list_as_map_nth {A} (d : A) (xs : list A) :
  xs = map (fun k => nth k xs d) (seq 0 (length xs)).
Proof.
  apply nth_ext with (d := d) (d' := d).
  - now rewrite length_map, length_seq.
  - intros k Hk. rewrite (nth_map_lt _ _ _ _ 0%nat) by now rewrite length_seq.
    now rewrite seq_nth.
Qed.

Lemma combine_map_map {A B C} (f : A -> B) (g : A -> C) (l : list A) :
  combine (map f l) (map g l) = map (fun a => (f a, g a)) l.
Proof. induction l as [|a l IH]; simpl; [reflexivity | now rewrite IH]. Qed.

(** On a non-empty list of lists of equal length [n], [zip_star] is
    the transposition. *)
Lemma zip_star_rect {A} (d : A) (xss : list (list A)) n :
  xss <> [] -> Forall (fun xs => length xs = n) xss ->
  zip_star xss = map (fun k => map (fun xs => nth k xs d) xss) (seq 0 n).
Proof.
  induction xss as [|xs rest IH]; intros Hne Hall; [congruence|].
  inversion Hall as [|? ? Hxs Hrest]; subst.
  destruct rest as [|ys rest].
  - simpl. rewrite (list_as_map_nth d xs) at 1. now rewrite map_map.
  - change (zip_star (xs :: ys :: rest))
      with (map (fun p => fst p :: snd p)
                (combine xs (zip_star (ys :: rest)))).
    rewrite IH by (congruence || assumption).
    rewrite (list_as_map_nth d xs) at 1.
    rewrite combine_map_map, map_map. reflexivity.
Qed.

Lemma intensity_regular T G K oscillators kernel width x :
  regular T G K oscillators ->
  intensity oscillators kernel width x
  = frame_averaged_intensity T G K oscillators kernel width x.
Proof.
  intros [HT Hall]. unfold intensity, frame_averaged_intensity.
  destruct oscillators as [|frame0 frames].
  - simpl in HT. subst T. simpl. rewrite py_sum_nil.
    symmetry. apply sum_n_all_zero. intros g _.
    apply sum_n_all_zero. intros k _.
    simpl. unfold Rdiv. ring.
  - set (oscs := frame0 :: frames) in *.
    rewrite (zip_star_rect [] oscs G).
    2: { unfold oscs; congruence. }
    2: { eapply List.Forall_impl; [|exact Hall]. intros fr [H _]. exact H. }
    rewrite map_map, py_sum_map_seq. apply sum_n_ext. intros g Hg.
    rewrite (zip_star_rect no_oscillator _ (K g)).
    2: { unfold oscs; simpl; congruence. }
    2: { apply List.Forall_forall. intros l Hl. apply in_map_iff in Hl as [fr [<- Hfr]].
         rewrite List.Forall_forall in Hall. now apply (Hall fr Hfr). }
    rewrite map_map, py_sum_map_seq. apply sum_n_ext. intros k Hk.
    rewrite !length_map, HT. f_equal.
    rewrite py_sum_nth. rewrite !length_map, HT.
    apply sum_n_ext. intros t Ht.
    rewrite (nth_map_lt _ _ _ _ no_oscillator) by (rewrite !length_map; lia).
    rewrite (nth_map_lt _ _ _ _ []) by (rewrite !length_map; lia).
    rewrite (nth_map_lt _ _ _ _ []) by lia.
    reflexivity.
Qed.

End IntensityFacts.

Section CrossSectionFacts.
Local Open Scope R_scope.

Lemma gaussian_distribution_pos x center delta :
  0 < delta -> 0 < gaussian_distribution x center delta.
Proof.
  intros Hd. unfold gaussian_distribution.
  apply Rmult_lt_0_compat; [|apply exp_pos].
  apply Rdiv_lt_0_compat; [|exact Hd].
  apply sqrt_lt_R0. apply Rdiv_lt_0_compat; [lra | apply PI_RGT_0].
Qed.

(** C1 (amended).  For gathered results of T frames with G initial
    states (groups), group g holding K g final states, the intensity at
    grid energy x is the sum over the groups of the sum over the final
    states of the group of the mean over the frames (division by the
    number of frames T) of f . kernel(x, gap, width); the cross section
    is that intensity times 2 pi^2 / 137.036 and (au_length . 100)^2. *)
Theorem cross_section_aggregation (pc : PhysicalConstants) T G K
    (oscillators : list (list (list Oscillator)))
    (kernel : R -> R -> R -> R) (width x : R) :
  regular T G K oscillators ->
  intensity oscillators kernel width x
  = frame_averaged_intensity T G K oscillators kernel width x
  /\ compute_cross_section pc oscillators kernel width x
     = 2 * PI ^ 2 / 137.036
       * frame_averaged_intensity T G K oscillators kernel width x
       * (au_length pc * 100) ^ 2.
Proof.
  intros Hreg. split.
  - now apply intensity_regular.
  - unfold compute_cross_section.
    now rewrite (intensity_regular T G K oscillators kernel width x Hreg).
Qed.

Lemma cross_section_aggregation_witness :
  intensity ex_two_frames gaussian_distribution 1 0
  = frame_averaged_intensity 2 1 (fun _ => 1%nat) ex_two_frames
      gaussian_distribution 1 0
  /\ compute_cross_section codata ex_two_frames gaussian_distribution 1 0
     = 2 * PI ^ 2 / 137.036
       * frame_averaged_intensity 2 1 (fun _ => 1%nat) ex_two_frames
           gaussian_distribution 1 0
       * (au_length codata * 100) ^ 2.
Proof.
  apply (cross_section_aggregation codata 2 1 (fun _ => 1%nat) ex_two_frames).
  split; [reflexivity|].
  repeat (apply List.Forall_cons;
          [split; [reflexivity | intros [|g] Hg; [reflexivity | lia]]|]).
  apply List.Forall_nil.
Defined.

(** C1 as stated fails: with two frames and a single final state the
    code divides the sum over the frames by 2 (the number of frames),
    not by 1 (the number of final states of the group). *)
Lemma intensity_mean_counterexample :
  intensity ex_two_frames gaussian_distribution 1 0
  <> spec_intensity 2 1 (fun _ => 1%nat) ex_two_frames
       gaussian_distribution 1 0.
Proof.
  pose proof (gaussian_distribution_pos 0 0 1 ltac:(lra)) as Hpos.
  unfold intensity, spec_intensity, ex_two_frames, osc_at, py_sum.
  simpl. lra.
Qed.

End CrossSectionFacts.

(** ** Rounding *)

Section RoundingFacts.
Local Open Scope R_scope.

Variable fl : R -> R.
Hypothesis fl_rounding : binary64_rounding fl.

Lemma Rabs_bounds x y : Rabs x <= y -> - y <= x <= y.
Proof. unfold Rabs. destruct (Rcase_abs x); lra. Qed.


Lemma fl_bounds x :
  x - unit_roundoff * Rabs x <= fl x <= x + unit_roundoff * Rabs x.
Proof.
  destruct fl_rounding as [_ Herr].
  pose proof (Rabs_bounds _ _ (Herr x)). lra.
Qed.

Lemma fl_zero : fl 0 = 0.
Proof. pose proof (fl_bounds 0) as H. rewrite Rabs_R0 in H. lra. Qed.

Lemma fl_nonneg x : 0 <= x -> 0 <= fl x.
Proof. intros Hx. rewrite <- fl_zero. now apply fl_rounding. Qed.


Lemma fl_pos x : 0 < x -> 0 < fl x.
Proof.
  intros Hx. pose proof (fl_bounds x) as H.
  rewrite Rabs_pos_eq in H by lra. unfold unit_roundoff in H. lra.
Qed.

Lemma fl_nonzero x : x <> 0 -> fl x <> 0.
Proof.
  intros Hx Hfl. pose proof (fl_bounds x) as H. rewrite Hfl in H.
  unfold unit_roundoff, Rabs in H. destruct (Rcase_abs x); lra.
Qed.




Lemma ratio_nonneg h w e0 e1 :
  0 < h -> 0 < w -> e0 <= e1 -> 0 <= computed_ratio fl h w e0 e1.
Proof.
  intros Hh Hw He. unfold computed_ratio. apply fl_nonneg.
  assert (Hc : 0 < fl (w / h)) by (apply fl_pos, Rdiv_lt_0_compat; lra).
  assert (Hd : 0 <= fl (fl (e1 / h) - fl (e0 / h))).
  { apply fl_nonneg.
    assert (fl (e0 / h) <= fl (e1 / h)); [|lra].
    apply fl_rounding. apply Rmult_le_compat_r; [|exact He].
    left. now apply Rinv_0_lt_compat. }
  apply Rmult_le_pos; [exact Hd|]. left. now apply Rinv_0_lt_compat.
Qed.



End RoundingFacts.

Lemma no_rounding_admissible : binary64_rounding no_rounding.
Proof.
  split; [intros x y H; exact H|]. intros x. unfold no_rounding.
  rewrite Rminus_diag, Rabs_R0.
  apply Rmult_le_pos; [|apply Rabs_pos].
  unfold unit_roundoff. lra.
Qed.

(** ** The energy grid *)

Section GridFacts.
Local Open Scope R_scope.

Variable fl : R -> R.
Hypothesis fl_rounding : binary64_rounding fl.

Lemma py_int_nonneg x : 0 <= x -> py_int x = Int_part x.
Proof.
  intros Hx. unfold py_int. destruct (Rlt_dec x 0); [lra | reflexivity].
Qed.

Lemma Int_part_nonneg x : 0 <= x -> (0 <= Int_part x)%Z.
Proof.
  intros Hx. destruct (base_Int_part x) as [_ Hlow].
  apply Z.lt_succ_r, lt_IZR. rewrite succ_IZR. lra.
Qed.

Lemma py_div_ok x y : y <> 0 -> py_div fl x y = Ok (fl (x / y)).
Proof.
  intros Hy. unfold py_div. destruct (Req_dec_T y 0); [contradiction | reflexivity].
Qed.

Lemma nth_map_seq (f : nat -> R) n k :
  (k < n)%nat -> nth k (map f (seq 0 n)) 0 = f k.
Proof.
  intros Hk. rewrite (nth_map_lt _ _ _ _ 0%nat) by now rewrite length_seq.
  now rewrite seq_nth.
Qed.

(** The points returned by [np.linspace]: [num] of them, the k-th at
    start + k (stop - start) / (num - 1). *)
Lemma np_linspace_points start stop num :
  (0 <= num)%Z ->
  exists ys,
    np_linspace start stop num = Ok ys
    /\ length ys = Z.to_nat num
    /\ forall k, (k < length ys)%nat ->
         nth k ys 0 = start + INR k * ((stop - start) / INR (length ys - 1)%nat).
Proof.
  intros Hnum. unfold np_linspace.
  destruct (Z.ltb_spec num 0) as [|_]; [lia|].
  set (n := Z.to_nat num).
  destruct (Nat.ltb_spec 1 n) as [Hn|Hn].
  - eexists. split; [reflexivity|].
    rewrite length_insert, length_map, length_seq.
    split; [reflexivity|]. intros k Hk.
    destruct (Nat.ltb_spec 0 (n - 1)%nat) as [_|]; [|lia].
    assert (Hdiv : INR (n - 1)%nat <> 0) by (apply not_0_INR; lia).
    destruct (Nat.eq_dec k (n - 1)%nat) as [->|Hne].
    + rewrite nth_lookup, list_lookup_insert_eq
        by (rewrite length_map, length_seq; lia).
      simpl. field. exact Hdiv.
    + rewrite nth_lookup, list_lookup_insert_ne by congruence.
      rewrite <- nth_lookup, nth_map_seq by exact Hk. ring.
  - eexists. split; [reflexivity|].
    rewrite length_map, length_seq. split; [reflexivity|]. intros k Hk.
    rewrite nth_map_seq by exact Hk.
    destruct (Nat.ltb_spec 0 (n - 1)%nat) as [|_]; [lia|].
    assert (k = 0%nat) as -> by lia. simpl. ring.
Qed.


(** The eager part of [create_promised_cross_section] for a non-zero
    width: the grid is the [np.linspace] of the converted bounds with
    the truncated computed ratio as number of points. *)
Lemma create_promised_cross_section_grid pc width e0 e1 convolution :
  h2ev pc <> 0 -> width <> 0 ->
  create_promised_cross_section pc fl width (e0, e1) convolution
  = do energies <- np_linspace (fl (e0 / h2ev pc)) (fl (e1 / h2ev pc))
                     (py_int (computed_ratio fl (h2ev pc) width e0 e1));
    Ok (energies,
        fun oscillators =>
          compute_cross_section_grid pc oscillators convolution energies width).
Proof.
  intros Hh Hw. unfold create_promised_cross_section.
  rewrite !(py_div_ok _ (h2ev pc)) by exact Hh. simpl bindR.
  rewrite py_div_ok; [reflexivity|].
  apply (fl_nonzero fl fl_rounding). intros H0. apply Hw. unfold Rdiv in H0.
  apply Rmult_integral in H0 as [H0|H0]; [exact H0|].
  exfalso. revert H0. apply Rinv_neq_0_compat. exact Hh.
Qed.



End GridFacts.

Section GridTheorem.
Local Open Scope R_scope.




Lemma shortening_admissible : binary64_rounding shortening.
Proof.
  unfold shortening. split.
  - intros x y Hxy. apply Rmult_le_compat_r; [|exact Hxy].
    unfold unit_roundoff. lra.
  - intros x. replace (x * (1 - unit_roundoff) - x)
      with (- unit_roundoff * x) by ring.
    rewrite Rabs_mult, Rabs_Ropp, (Rabs_pos_eq unit_roundoff);
      [lra | unfold unit_roundoff; lra].
Qed.

(** The same in the model: for (1, 7) eV and the width 2 eV the grid
    has 3 points when no operation rounds, and 2 points under a
    rounding that is as admissible. *)
Lemma grid_points_depend_on_rounding :
  (exists energies promised,
     create_promised_cross_section codata no_rounding 2 (1, 7) "gaussian"
     = Ok (energies, promised)
     /\ length energies = 3%nat)
  /\ (exists energies promised,
        create_promised_cross_section codata shortening 2 (1, 7) "gaussian"
        = Ok (energies, promised)
        /\ length energies = 2%nat).
Proof.
  assert (Hh : h2ev codata <> 0) by (unfold codata; simpl; lra).
  split.
  - rewrite (create_promised_cross_section_grid no_rounding
               no_rounding_admissible) by lra.
    assert (Hr : computed_ratio no_rounding (h2ev codata) 2 1 7 = 3).
    { unfold computed_ratio, no_rounding. field. exact Hh. }
    rewrite Hr, py_int_nonneg by lra.
    rewrite <- (Int_part_spec 3 3) by (simpl; lra).
    destruct (np_linspace_points (no_rounding (1 / h2ev codata))
                (no_rounding (7 / h2ev codata)) 3 ltac:(lia))
      as (ys & -> & Hlen & _).
    simpl bindR. do 2 eexists. split; [reflexivity | exact Hlen].
  - rewrite (create_promised_cross_section_grid shortening
               shortening_admissible) by lra.
    assert (Hr : computed_ratio shortening (h2ev codata) 2 1 7
                 = 3 * (1 - unit_roundoff) * (1 - unit_roundoff)).
    { unfold computed_ratio, shortening. field.
      repeat split; try exact Hh; unfold unit_roundoff; lra. }
    rewrite Hr, py_int_nonneg by (unfold unit_roundoff; lra).
    rewrite <- (Int_part_spec _ 2) by (unfold unit_roundoff; simpl; lra).
    destruct (np_linspace_points (shortening (1 / h2ev codata))
                (shortening (7 / h2ev codata)) 2 ltac:(lia))
      as (ys & -> & Hlen & _).
    simpl bindR. do 2 eexists. split; [reflexivity | exact Hlen].
Qed.

(** The example of the spec, (0, 5) eV with a width of 0.1 eV, in
    binary64: 50 points with the value of [h2ev] in [codata], 49 with
    its value in the CODATA 2014 tables. *)
Lemma spec_example_binary64 :
  Binary64.npoints Binary64.h2ev Binary64.tenth
    (Binary64.of_int 0, Binary64.of_int 5)
  = Ok 50%Z
  /\ Binary64.npoints Binary64.h2ev_2014 Binary64.tenth
       (Binary64.of_int 0, Binary64.of_int 5)
     = Ok 49%Z.
Proof. split; vm_compute; reflexivity. Qed.

End GridTheorem.

(** ** The run of the workflow *)

Section WorkflowFacts.
Local Open Scope R_scope.

Variable pc : PhysicalConstants.
Variable fl : R -> R.
Hypothesis fl_rounding : binary64_rounding fl.
Variable scheduleOscillator :
  nat -> list AtomXYZ -> result (list (list Oscillator)).

Lemma unknown_convolution (convolution : string) :
  convolution <> "gaussian"%string -> convolution <> "lorentzian"%string ->
  convolution_functions !! convolution = None.
Proof.
  intros Hg Hl. unfold convolution_functions.
  rewrite lookup_insert_ne by congruence.
  rewrite lookup_insert_ne by congruence.
  apply lookup_empty.
Qed.

Lemma compute_cross_section_grid_unknown oscillators convolution energies width :
  convolution_functions !! convolution = None ->
  compute_cross_section_grid pc oscillators convolution energies width
  = Err KeyError.
Proof. intros H. unfold compute_cross_section_grid. now rewrite H. Qed.


(** Running the per-frame jobs when each of them succeeds. *)
Lemma run_frames_ok (jobs : list (nat * list AtomXYZ)) (w : World) :
  (forall p, In p jobs -> exists r, scheduleOscillator (fst p) (snd p) = Ok r) ->
  exists data,
    mapM (fun '(i, mol) =>
            run_ log (ComputeFrame i); liftR (scheduleOscillator i mol))
         jobs w
    = (mkWorld (files w) (trace w ++ frame_events jobs), Ok data).
Proof.
  revert w. induction jobs as [|[i mol] jobs IH]; intros w Hok.
  - exists []. simpl. unfold retM. rewrite app_nil_r. now destruct w.
  - destruct (Hok (i, mol)) as [r Hr]; [now left|]. simpl in Hr.
    destruct (IH (mkWorld (files w) (trace w ++ [ComputeFrame i])))
      as [data Hdata].
    { intros p Hp. apply Hok. now right. }
    exists (r :: data). simpl mapM.
    rewrite (bindM_ok _ _ w (mkWorld (files w) (trace w ++ [ComputeFrame i])) r).
    2: { rewrite (bindM_ok _ _ w
                    (mkWorld (files w) (trace w ++ [ComputeFrame i])) tt)
           by reflexivity.
         unfold liftR. now rewrite Hr. }
    rewrite (bindM_ok _ _ _ _ data Hdata).
    unfold retM. simpl. unfold frame_events. simpl.
    now rewrite <- app_assoc.
Qed.

(** The run when the grid cannot be built: nothing has happened yet. *)
Lemma workflow_grid_error mols every convolution width er jobs e w :
  select_frames every (enumerate mols) = Ok jobs ->
  create_promised_cross_section pc fl width er convolution = Err e ->
  workflow_oscillator_strength pc fl scheduleOscillator mols every convolution
    width er w
  = (w, Err e).
Proof.
  intros Hsel Hgrid. unfold workflow_oscillator_strength.
  rewrite (bindM_ok _ _ w w jobs) by (unfold liftR; now rewrite Hsel).
  apply bindM_err. unfold liftR. now rewrite Hgrid.
Qed.

(** The run when the grid is built, the per-frame jobs succeed and the
    evaluation of the cross section raises [e]. *)
Lemma workflow_cross_section_error
    mols every convolution width er jobs energies e w :
  select_frames every (enumerate mols) = Ok jobs ->
  create_promised_cross_section pc fl width er convolution
  = Ok (energies,
        fun oscillators =>
          compute_cross_section_grid pc oscillators convolution energies width) ->
  (forall p, In p jobs -> exists r, scheduleOscillator (fst p) (snd p) = Ok r) ->
  (forall data,
     compute_cross_section_grid pc data convolution energies width = Err e) ->
  workflow_oscillator_strength pc fl scheduleOscillator mols every convolution
    width er w
  = (mkWorld (files w) (trace w ++ frame_events jobs ++ [PrintOscillators]),
     Err e).
Proof.
  intros Hsel Hgrid Hjobs Hfail. unfold workflow_oscillator_strength.
  rewrite (bindM_ok _ _ w w jobs) by (unfold liftR; now rewrite Hsel).
  erewrite bindM_ok; [|unfold liftR; rewrite Hgrid; reflexivity].
  destruct (run_frames_ok jobs w Hjobs) as [data Hdata].
  rewrite (bindM_ok _ _ _ _ data Hdata).
  rewrite (bindM_ok _ _ _
             (mkWorld (files w)
                (trace w ++ frame_events jobs ++ [PrintOscillators])) tt).
  2: { unfold log, modifyM. simpl. now rewrite <- app_assoc. }
  apply bindM_err. unfold liftR. now rewrite Hfail.
Qed.

(** The three outcomes of building the grid for a positive width. *)
Lemma grid_nonnegative width e0 e1 convolution :
  0 < h2ev pc -> 0 < width -> e0 <= e1 ->
  exists energies,
    create_promised_cross_section pc fl width (e0, e1) convolution
    = Ok (energies,
          fun oscillators =>
            compute_cross_section_grid pc oscillators convolution energies width).
Proof.
  intros Hh Hw He.
  pose proof (ratio_nonneg fl fl_rounding (h2ev pc) width e0 e1 Hh Hw He) as Hr.
  rewrite (create_promised_cross_section_grid fl fl_rounding) by lra.
  rewrite (py_int_nonneg _ Hr).
  destruct (np_linspace_points (fl (e0 / h2ev pc)) (fl (e1 / h2ev pc)) _
              (Int_part_nonneg _ Hr)) as (ys & -> & _).
  now exists ys.
Qed.






End WorkflowFacts.

Section ConfigurationErrors.
Local Open Scope R_scope.

(** C7 (amended).  With a kernel name that is neither "gaussian" nor
    "lorentzian" and an otherwise valid configuration, the sweep fails
    with [KeyError] only when the cross section is evaluated: by then
    every sampled frame has been computed; no file is written. *)
Theorem unknown_kernel_fails_after_frames
    pc fl scheduleOscillator mols every (convolution : string) width e0 e1
    jobs w :
  binary64_rounding fl ->
  convolution <> "gaussian"%string -> convolution <> "lorentzian"%string ->
  0 < h2ev pc -> 0 < width -> e0 < e1 ->
  select_frames every (enumerate mols) = Ok jobs ->
  (forall p, In p jobs -> exists r, scheduleOscillator (fst p) (snd p) = Ok r) ->
  workflow_oscillator_strength pc fl scheduleOscillator mols every convolution
    width (e0, e1) w
  = (mkWorld (files w) (trace w ++ frame_events jobs ++ [PrintOscillators]),
     Err KeyError).
Proof.
  intros Hfl Hg Hl Hh Hw He Hsel Hjobs.
  destruct (grid_nonnegative pc fl Hfl width e0 e1 convolution)
    as [energies Hgrid]; [lra | lra | lra |].
  apply (workflow_cross_section_error pc fl scheduleOscillator mols every
           convolution width (e0, e1) jobs energies KeyError w Hsel Hgrid Hjobs).
  intros data. apply compute_cross_section_grid_unknown.
  now apply unknown_convolution.
Qed.

Lemma unknown_kernel_fails_after_frames_witness :
  workflow_oscillator_strength codata no_rounding ex_schedule [[]] 1 "voigt" 0.1
    (0, 5) ex_world
  = (mkWorld ∅ [ComputeFrame 0; PrintOscillators], Err KeyError).
Proof.
  apply (unknown_kernel_fails_after_frames codata no_rounding ex_schedule [[]] 1
           "voigt" 0.1 0 5 [(0%nat, [])] ex_world);
    try exact no_rounding_admissible;
    try discriminate; try (unfold codata; simpl; lra); try reflexivity.
  intros p _. now exists [].
Defined.

(** C7 as stated fails: the frame is computed before the unknown kernel
    name is noticed. *)
Lemma unknown_kernel_counterexample :
  let out := workflow_oscillator_strength codata no_rounding ex_schedule [[]] 1
               "voigt" 0.1 (0, 5) ex_world in
  snd out = Err KeyError /\ In (ComputeFrame 0) (trace (fst out)).
Proof.
  destruct (grid_nonnegative codata no_rounding no_rounding_admissible 0.1 0 5 "voigt")
    as [energies Hgrid];
    [unfold codata; simpl; lra | lra | lra |].
  rewrite (workflow_cross_section_error codata no_rounding ex_schedule [[]] 1
             "voigt" 0.1 (0, 5) [(0%nat, [])] energies KeyError ex_world
             eq_refl Hgrid).
  - simpl. split; [reflexivity | now left].
  - intros p _. now exists [].
  - intros data. now apply compute_cross_section_grid_unknown.
Qed.




(** Between the two cases the rounding decides: for the range (7, 6) eV
    and the width 1 eV the quotient is -0.9999999999999992 in binary64
    and the grid has no point, as for (6, 7) eV. *)
Lemma degenerate_range_binary64 :
  Binary64.npoints Binary64.h2ev (Binary64.of_int 1)
    (Binary64.of_int 7, Binary64.of_int 6)
  = Ok 0%Z
  /\ Binary64.npoints Binary64.h2ev (Binary64.of_int 1)
       (Binary64.of_int 6, Binary64.of_int 7)
     = Ok 0%Z
  /\ Binary64.npoints Binary64.h2ev (Binary64.of_int 1)
       (Binary64.of_int 1, Binary64.of_int 1)
     = Ok 0%Z.
Proof. repeat split; vm_compute; reflexivity. Qed.

End ConfigurationErrors.

(** ** The transition table *)

Section WriterFacts.
Local Open Scope R_scope.

Variable pc : PhysicalConstants.

Lemma write_oscillator_appends filename osc w :
  (3 <= length (components osc))%nat ->
  write_oscillator pc filename osc w
  = (mkWorld (<[filename := default [] (files w !! filename)
                              ++ [transition_line pc osc]]> (files w))
             (trace w),
     Ok tt).
Proof.
  intros H3. unfold write_oscillator, transition_line.
  destruct (components osc) as [|c1 [|c2 [|c3 rest]]]; simpl in H3; try lia.
  reflexivity.
Qed.

(** Appending the rows of a block to a file that exists. *)
Lemma write_rows filename xs w l :
  Forall (fun osc => (3 <= length (components osc))%nat) xs ->
  files w !! filename = Some l ->
  forM xs (fun args => write_oscillator pc filename args) w
  = (mkWorld (<[filename := l ++ map (transition_line pc) xs]> (files w))
             (trace w),
     Ok tt).
Proof.
  revert w l. induction xs as [|osc xs IH]; intros w l Hall Hl.
  - simpl. unfold retM. rewrite app_nil_r, insert_id by exact Hl.
    now destruct w.
  - inversion Hall as [|? ? H3 Hrest]; subst. simpl forM.
    rewrite (bindM_ok _ _ _ _ tt (write_oscillator_appends filename osc w H3)).
    rewrite (IH _ (l ++ [transition_line pc osc]) Hrest).
    + simpl. rewrite insert_insert_eq, <- app_assoc. reflexivity.
    + simpl. rewrite Hl. simpl. apply lookup_insert_eq.
Qed.

(** One turn of the loop of [write_information]: whatever the file
    held is replaced by the header and the rows of this block. *)
Lemma write_block filename header xs w :
  Forall (fun osc => (3 <= length (components osc))%nat) xs ->
  (run_ open_w filename [header];
   forM xs (fun args => write_oscillator pc filename args)) w
  = (mkWorld (<[filename := header :: map (transition_line pc) xs]> (files w))
             (trace w),
     Ok tt).
Proof.
  intros Hall.
  rewrite (bindM_ok _ _ w
             (mkWorld (<[filename := [header]]> (files w)) (trace w)) tt)
    by reflexivity.
  rewrite (write_rows filename xs _ [header] Hall) by apply lookup_insert_eq.
  simpl. now rewrite insert_insert_eq.
Qed.

(** After [write_information] the table holds the header and the rows
    of the last block only. *)
Lemma write_information_last_block blocks last w :
  Forall (Forall (fun osc => (3 <= length (components osc))%nat))
         (blocks ++ [last]) ->
  forM (blocks ++ [last]) (fun xs =>
    run_ open_w "oscillators.txt" [oscillators_header];
    forM xs (fun args => write_oscillator pc "oscillators.txt" args)) w
  = (mkWorld (<["oscillators.txt"%string :=
                  oscillators_header :: map (transition_line pc) last]>
                (files w))
             (trace w),
     Ok tt).
Proof.
  revert w. induction blocks as [|b blocks IH]; intros w Hall.
  - simpl app. simpl forM.
    inversion Hall as [|? ? Hlast _]; subst.
    rewrite (bindM_ok _ _ _ _ tt (write_block _ _ last w Hlast)).
    reflexivity.
  - simpl app. simpl forM.
    inversion Hall as [|? ? Hb Hrest]; subst.
    rewrite (bindM_ok _ _ _ _ tt (write_block _ _ b w Hb)).
    rewrite (IH _ Hrest). simpl. now rewrite insert_insert_eq.
Qed.

End WriterFacts.

(** C9 fails on the code.  For a sweep of two frames with one transition
    each, [write_information] leaves a table with the header and the row
    of the second frame only: the file is reopened for writing, and so
    emptied, at every block. *)
Theorem write_information_drops_first_block :
  write_information codata ex_sweep ex_world
  = (mkWorld (<["oscillators.txt"%string :=
                  [oscillators_header; transition_line codata ex_second]]> ∅)
             [],
     Ok tt).
Proof.
  unfold write_information.
  change (concat ex_sweep) with ([[ex_first]] ++ [[ex_second]]).
  rewrite write_information_last_block; [reflexivity|].
  repeat constructor.
Qed.

(** ** The multipole cache *)

Section CacheFacts.

Variable uuid4 : nat -> string.
Variable compute_integrals_multipole :
  list AtomXYZ -> string -> string -> result ndarray.

(** [compute_matrix_multipole] for one of the three kinds. *)
Lemma compute_matrix_multipole_known mol config multipole d :
  known_multipole multipole ->
  compute_matrix_multipole uuid4 compute_integrals_multipole mol config
    multipole d
  = let path := scratch_file uuid4 config d in
    let calls := kernel_calls d ++ [kernel_call uuid4 config multipole d] in
    match (do a <- compute_integrals_multipole mol (cp2k_basis config) multipole;
           arrange multipole a) with
    | Ok m =>
        (mkDisk (hdf5 d) (delete path (scratch d)) calls (S (uuid_count d)),
         Ok m)
    | Err e =>
        (mkDisk (hdf5 d) (<[path := mol]> (scratch d)) calls (S (uuid_count d)),
         Err e)
    end.
Proof.
  intros [-> | [-> | ->]];
    unfold compute_matrix_multipole, arrange, kernel_call, scratch_file;
    simpl String.eqb; cbv beta iota;
    unfold bindM, draw_uuid, write_xyz, modifyM, call_kernel, os_remove,
      liftR, retM; simpl;
    rewrite lookup_insert_eq;
    destruct (compute_integrals_multipole mol (cp2k_basis config) _)
      as [a|e]; simpl; try reflexivity.
  - now rewrite lookup_insert_eq, delete_insert_eq.
  - destruct (shape1 a) as [dim|e]; simpl; [|reflexivity].
    destruct (reshape a [4; dim; dim]%nat) as [m|e]; simpl; [|reflexivity].
    now rewrite lookup_insert_eq, delete_insert_eq.
  - destruct (shape1 a) as [dim|e]; simpl; [|reflexivity].
    destruct (reshape a [10; dim; dim]%nat) as [m|e]; simpl; [|reflexivity].
    now rewrite lookup_insert_eq, delete_insert_eq.
Qed.

(** [compute_matrix_multipole] for any other kind: the file is written
    and removed, the library is not called, and the return fails. *)
Lemma compute_matrix_multipole_unknown mol config multipole d :
  ~ known_multipole multipole ->
  compute_matrix_multipole uuid4 compute_integrals_multipole mol config
    multipole d
  = (mkDisk (hdf5 d) (delete (scratch_file uuid4 config d) (scratch d))
            (kernel_calls d) (S (uuid_count d)),
     Err UnboundLocalError).
Proof.
  intros Hunknown. unfold known_multipole in Hunknown.
  unfold compute_matrix_multipole, scratch_file.
  destruct (String.eqb_spec multipole "overlap") as [->|_]; [tauto|].
  destruct (String.eqb_spec multipole "dipole") as [->|_]; [tauto|].
  destruct (String.eqb_spec multipole "quadrupole") as [->|_]; [tauto|].
  unfold bindM, draw_uuid, write_xyz, modifyM, os_remove, liftR, retM. simpl.
  now rewrite lookup_insert_eq, delete_insert_eq.
Qed.

Lemma search_multipole_miss path key d :
  (forall f5, hdf5 d !! path = Some f5 -> f5 !! key = None) ->
  search_multipole_in_hdf5 path key d = (d, Ok None).
Proof.
  intros Hmiss. unfold search_multipole_in_hdf5, bindM, is_data_in_hdf5, getsM.
  destruct (hdf5 d !! path) as [f5|] eqn:Hf; [|reflexivity].
  rewrite (Hmiss f5 eq_refl).
  rewrite bool_decide_eq_false_2; [reflexivity|].
  intros [x Hx]. discriminate.
Qed.

Lemma search_multipole_hit path key d f5 a :
  hdf5 d !! path = Some f5 -> f5 !! key = Some a ->
  search_multipole_in_hdf5 path key d = (d, Ok (Some a)).
Proof.
  intros Hf Hk.
  unfold search_multipole_in_hdf5, bindM, is_data_in_hdf5, getsM.
  rewrite Hf, Hk. rewrite bool_decide_eq_true_2 by eauto.
  unfold retrieve_hdf5_data. now rewrite Hf, Hk.
Qed.

(** A miss followed by a successful computation: the tensor is returned
    as computed and stored in single precision. *)
Lemma get_multipole_matrix_miss config inp multipole d f5 a m :
  known_multipole multipole ->
  hdf5 d !! path_hdf5 config = Some f5 ->
  f5 !! multipole_key config inp multipole = None ->
  compute_integrals_multipole (inp_mol inp) (cp2k_basis config) multipole
  = Ok a ->
  arrange multipole a = Ok m ->
  get_multipole_matrix uuid4 compute_integrals_multipole config inp multipole d
  = (mkDisk (<[path_hdf5 config :=
                <[multipole_key config inp multipole := astype Float32 m]> f5]>
              (hdf5 d))
            (delete (scratch_file uuid4 config d) (scratch d))
            (kernel_calls d ++ [kernel_call uuid4 config multipole d])
            (S (uuid_count d)),
     Ok m).
Proof.
  intros Hknown Hf Hk Hkernel Harr. unfold get_multipole_matrix.
  fold (multipole_key config inp multipole).
  rewrite (bindM_ok _ _ d d None).
  2: { apply search_multipole_miss. intros f Hf'. congruence. }
  erewrite bindM_ok.
  2: { rewrite compute_matrix_multipole_known by exact Hknown.
       rewrite Hkernel. simpl bindR. rewrite Harr. reflexivity. }
  unfold bindM, store_arrays_in_hdf5, retM. simpl.
  now rewrite Hf, Hk.
Qed.

Lemma get_multipole_matrix_hit config inp multipole d f5 a :
  hdf5 d !! path_hdf5 config = Some f5 ->
  f5 !! multipole_key config inp multipole = Some a ->
  get_multipole_matrix uuid4 compute_integrals_multipole config inp multipole d
  = (d, Ok a).
Proof.
  intros Hf Hk. unfold get_multipole_matrix.
  fold (multipole_key config inp multipole).
  now rewrite (bindM_ok _ _ d d (Some a) (search_multipole_hit _ _ d f5 a Hf Hk)).
Qed.

End CacheFacts.

Section CacheTheorems.

(** C2 (amended).  When the key is absent, the library returns a tensor
    and the tensor has the layout of its kind, two calls of the cache
    with the same point and kind call the library exactly once; the
    first call returns the tensor as computed and the second returns
    the stored copy, which is that tensor converted to single precision
    (not bit-identical in general).  The second call changes nothing. *)
Theorem cache_second_call_reads_stored_copy
    uuid4 compute_integrals_multipole config inp multipole d f5 a m :
  known_multipole multipole ->
  hdf5 d !! path_hdf5 config = Some f5 ->
  f5 !! multipole_key config inp multipole = None ->
  compute_integrals_multipole (inp_mol inp) (cp2k_basis config) multipole
  = Ok a ->
  arrange multipole a = Ok m ->
  exists d1,
    get_multipole_matrix uuid4 compute_integrals_multipole config inp
      multipole d = (d1, Ok m)
    /\ get_multipole_matrix uuid4 compute_integrals_multipole config inp
         multipole d1 = (d1, Ok (astype Float32 m))
    /\ kernel_calls d1
       = kernel_calls d ++ [kernel_call uuid4 config multipole d].
Proof.
  intros Hknown Hf Hk Hkernel Harr.
  eexists. split.
  - apply (get_multipole_matrix_miss uuid4 compute_integrals_multipole config
             inp multipole d f5 a m Hknown Hf Hk Hkernel Harr).
  - split; [|reflexivity].
    eapply get_multipole_matrix_hit; simpl; apply lookup_insert_eq.
Qed.

Lemma cache_second_call_reads_stored_copy_witness :
  exists d1,
    get_multipole_matrix ex_uuid4 ex_kernel ex_config ex_input "overlap" ex_disk
    = (d1, Ok (mkArray Float64 [1; 1] [tenth64]))
    /\ get_multipole_matrix ex_uuid4 ex_kernel ex_config ex_input "overlap" d1
       = (d1, Ok (astype Float32 (mkArray Float64 [1; 1] [tenth64])))
    /\ kernel_calls d1
       = kernel_calls ex_disk
         ++ [kernel_call ex_uuid4 ex_config "overlap" ex_disk].
Proof.
  apply (cache_second_call_reads_stored_copy ex_uuid4 ex_kernel ex_config
           ex_input "overlap" ex_disk ∅ (mkArray Float64 [1; 1] [tenth64]));
    try reflexivity.
  now left.
Defined.

(** C2 as stated fails: for a library that returns the binary64 number
    nearest to 0.1, the second call returns the binary32 number nearest
    to it, so the two tensors differ in element type and in value. *)
Lemma cache_bit_identical_counterexample :
  exists d1 t1 t2,
    get_multipole_matrix ex_uuid4 ex_kernel ex_config ex_input "overlap" ex_disk
    = (d1, Ok t1)
    /\ get_multipole_matrix ex_uuid4 ex_kernel ex_config ex_input "overlap" d1
       = (d1, Ok t2)
    /\ nd_data t1 = [S754_finite false 7205759403792794 (-56)]
    /\ nd_data t2 = [S754_finite false 13421773 (-27)]
    /\ t1 <> t2.
Proof.
  do 3 eexists. split; [vm_compute; reflexivity|].
  split; [vm_compute; reflexivity|].
  split; [reflexivity|]. split; [reflexivity|]. discriminate.
Qed.

(** C5 (amended).  For one of the three kinds, the scratch file is
    gone when [compute_matrix_multipole] returns a tensor; when the
    library raises, or the tensor does not have the layout of its kind,
    the exception goes to the caller and the scratch file stays. *)
Theorem scratch_file_after_kernel
    uuid4 compute_integrals_multipole mol config multipole d :
  known_multipole multipole ->
  let out := compute_matrix_multipole uuid4 compute_integrals_multipole mol
               config multipole d in
  match (do a <- compute_integrals_multipole mol (cp2k_basis config) multipole;
         arrange multipole a) with
  | Ok m =>
      snd out = Ok m
      /\ scratch (fst out) !! scratch_file uuid4 config d = None
  | Err e =>
      snd out = Err e
      /\ scratch (fst out) !! scratch_file uuid4 config d = Some mol
  end.
Proof.
  intros Hknown out. subst out.
  rewrite compute_matrix_multipole_known by exact Hknown.
  cbv zeta.
  destruct (do a <- compute_integrals_multipole mol (cp2k_basis config) multipole;
            arrange multipole a) as [m|e]; simpl.
  - split; [reflexivity | apply lookup_delete_eq].
  - split; [reflexivity | apply lookup_insert_eq].
Qed.

Lemma scratch_file_after_kernel_witness :
  snd (compute_matrix_multipole ex_uuid4 ex_kernel [] ex_config "overlap"
         ex_disk)
  = Ok (mkArray Float64 [1; 1] [tenth64])
  /\ scratch (fst (compute_matrix_multipole ex_uuid4 ex_kernel [] ex_config
                     "overlap" ex_disk))
     !! scratch_file ex_uuid4 ex_config ex_disk = None.
Proof.
  apply (scratch_file_after_kernel ex_uuid4 ex_kernel [] ex_config "overlap"
           ex_disk).
  now left.
Defined.

(** C5 as stated fails: when the library raises, the scratch file is
    still there after the call. *)
Lemma scratch_file_left_counterexample :
  let out := compute_matrix_multipole ex_uuid4 ex_failing_kernel [] ex_config
               "dipole" ex_disk in
  snd out = Err KernelError
  /\ scratch (fst out) !! scratch_file ex_uuid4 ex_config ex_disk = Some [].
Proof. vm_compute. split; reflexivity. Qed.

(** C10 (amended).  For a kind other than 'overlap', 'dipole' and
    'quadrupole' the scratch file is written and removed again, the
    library is not called, and the return fails with an unbound-variable
    error; on a miss the cache passes the error on and stores nothing. *)
Theorem unknown_multipole_kind
    uuid4 compute_integrals_multipole config inp multipole d :
  ~ known_multipole multipole ->
  (forall f5, hdf5 d !! path_hdf5 config = Some f5 ->
              f5 !! multipole_key config inp multipole = None) ->
  let out := compute_matrix_multipole uuid4 compute_integrals_multipole
               (inp_mol inp) config multipole d in
  snd out = Err UnboundLocalError
  /\ scratch (fst out) !! scratch_file uuid4 config d = None
  /\ kernel_calls (fst out) = kernel_calls d
  /\ get_multipole_matrix uuid4 compute_integrals_multipole config inp
       multipole d = out
  /\ hdf5 (fst out) = hdf5 d.
Proof.
  intros Hunknown Hmiss out. subst out.
  rewrite compute_matrix_multipole_unknown by exact Hunknown. simpl.
  split; [reflexivity|]. split; [apply lookup_delete_eq|].
  split; [reflexivity|]. split; [|reflexivity].
  unfold get_multipole_matrix. fold (multipole_key config inp multipole).
  rewrite (bindM_ok _ _ d d None (search_multipole_miss _ _ d Hmiss)).
  apply bindM_err. now apply compute_matrix_multipole_unknown.
Qed.

Lemma unknown_multipole_kind_witness :
  let out := compute_matrix_multipole ex_uuid4 ex_kernel (inp_mol ex_input)
               ex_config "octupole" ex_disk in
  snd out = Err UnboundLocalError
  /\ scratch (fst out) !! scratch_file ex_uuid4 ex_config ex_disk = None
  /\ kernel_calls (fst out) = kernel_calls ex_disk
  /\ get_multipole_matrix ex_uuid4 ex_kernel ex_config ex_input "octupole"
       ex_disk = out
  /\ hdf5 (fst out) = hdf5 ex_disk.
Proof.
  apply (unknown_multipole_kind ex_uuid4 ex_kernel ex_config ex_input
           "octupole" ex_disk).
  - intros [H | [H | H]]; discriminate.
  - intros f5 Hf. simpl in Hf. rewrite lookup_insert_eq in Hf.
    injection Hf as <-. apply lookup_empty.
Defined.

(** C10 as stated fails: the scratch file has been removed when the
    unbound-variable error is raised. *)
Lemma unknown_multipole_scratch_counterexample :
  let out := compute_matrix_multipole ex_uuid4 ex_kernel [] ex_config
               "octupole" ex_disk in
  snd out = Err UnboundLocalError
  /\ scratch (fst out) !! scratch_file ex_uuid4 ex_config ex_disk = None.
Proof. vm_compute. split; reflexivity. Qed.

End CacheTheorems.

(** * Further properties *)

(** ** The broadening kernels *)

Section KernelProperties.
Local Open Scope R_scope.

Lemma pow2_pos y : y <> 0 -> 0 < y ^ 2.
Proof. intros Hy. rewrite <- Rsqr_pow2. now apply Rsqr_pos_lt. Qed.

Lemma pow2_nonneg y : 0 <= y ^ 2.
Proof. rewrite <- Rsqr_pow2. apply Rle_0_sqr. Qed.

(** X1.  For a positive width the Gaussian kernel is positive, has its
    maximum sqrt(2/pi)/delta at the line centre, and takes the same
    value at equal distances on both sides of the centre. *)
Theorem gaussian_distribution_shape x center delta :
  0 < delta ->
  0 < gaussian_distribution x center delta
  /\ gaussian_distribution x center delta
     <= gaussian_distribution center center delta
  /\ gaussian_distribution center center delta = sqrt (2 / PI) / delta
  /\ gaussian_distribution (center - (x - center)) center delta
     = gaussian_distribution x center delta.
Proof.
  intros Hd.
  assert (Hpre : 0 < sqrt (2 / PI) / delta).
  { apply Rdiv_lt_0_compat; [|exact Hd].
    apply sqrt_lt_R0, Rdiv_lt_0_compat; [lra | apply PI_RGT_0]. }
  assert (Hcentre : gaussian_distribution center center delta
                    = sqrt (2 / PI) / delta).
  { unfold gaussian_distribution.
    replace (-2 * ((center - center) / delta) ^ 2) with 0
      by (unfold Rdiv; ring).
    rewrite exp_0. ring. }
  split; [now apply gaussian_distribution_pos|].
  split; [|split; [exact Hcentre|]].
  - rewrite Hcentre. unfold gaussian_distribution.
    rewrite <- (Rmult_1_r (sqrt (2 / PI) / delta)) at 2.
    apply Rmult_le_compat_l; [lra|].
    rewrite <- exp_0.
    destruct (Req_dec ((x - center) / delta) 0) as [-> | Hne].
    + replace (-2 * 0 ^ 2) with 0 by ring. lra.
    + apply Rlt_le, exp_increasing.
      pose proof (pow2_pos _ Hne). lra.
  - unfold gaussian_distribution. f_equal. f_equal.
    unfold Rdiv. ring.
Qed.

Lemma gaussian_distribution_shape_witness :
  0 < gaussian_distribution 3 1 2
  /\ gaussian_distribution 3 1 2 <= gaussian_distribution 1 1 2
  /\ gaussian_distribution 1 1 2 = sqrt (2 / PI) / 2
  /\ gaussian_distribution (1 - (3 - 1)) 1 2 = gaussian_distribution 3 1 2.
Proof. apply (gaussian_distribution_shape 3 1 2). lra. Defined.

(** X2.  For a positive width the Lorentzian kernel is positive, has
    its maximum 2/(pi delta) at the line centre, is symmetric about the
    centre, and falls to half the maximum at a distance delta/2 from
    the centre: delta is its full width at half maximum. *)
Theorem lorentzian_distribution_shape x center delta :
  0 < delta ->
  0 < lorentzian_distribution x center delta
  /\ lorentzian_distribution x center delta
     <= lorentzian_distribution center center delta
  /\ lorentzian_distribution center center delta = 2 / (PI * delta)
  /\ lorentzian_distribution (center - (x - center)) center delta
     = lorentzian_distribution x center delta
  /\ lorentzian_distribution (center + delta / 2) center delta
     = lorentzian_distribution center center delta / 2.
Proof.
  intros Hd. pose proof PI_RGT_0 as Hpi.
  assert (Hden : forall y, 0 < (y - center) ^ 2 + (delta / 2) ^ 2).
  { intros y. pose proof (pow2_nonneg (y - center)).
    assert (0 < (delta / 2) ^ 2) by (apply pow2_pos; lra). lra. }
  assert (Hcte : 0 < delta / (2 * PI)).
  { apply Rdiv_lt_0_compat; lra. }
  unfold lorentzian_distribution. repeat split.
  - apply Rmult_lt_0_compat; [exact Hcte|].
    apply Rdiv_lt_0_compat; [lra | apply Hden].
  - apply Rmult_le_compat_l; [lra|].
    unfold Rdiv. rewrite !Rmult_1_l.
    apply Rinv_le_contravar; [apply Hden|].
    pose proof (pow2_nonneg (x - center)).
    replace ((center - center) ^ 2) with 0 by ring. lra.
  - field. repeat split; try lra. nra.
  - f_equal. f_equal. f_equal. ring.
  - field. repeat split; try lra; nra.
Qed.

Lemma lorentzian_distribution_shape_witness :
  0 < lorentzian_distribution 3 1 2
  /\ lorentzian_distribution 3 1 2 <= lorentzian_distribution 1 1 2
  /\ lorentzian_distribution 1 1 2 = 2 / (PI * 2)
  /\ lorentzian_distribution (1 - (3 - 1)) 1 2 = lorentzian_distribution 3 1 2
  /\ lorentzian_distribution (1 + 2 / 2) 1 2
     = lorentzian_distribution 1 1 2 / 2.
Proof. apply (lorentzian_distribution_shape 3 1 2). lra. Defined.

End KernelProperties.

(** ** State indices of the calculator *)

Section IndexProperties.
Local Open Scope R_scope.

Lemma py_index_wrapped n i :
  index_in_range n i -> py_index n i = Ok (wrap_index n i).
Proof.
  unfold index_in_range, py_index, wrap_index. intros [Hlo Hhi].
  destruct (Z.ltb_spec i 0) as [Hneg|Hpos].
  - destruct (Z.leb_spec 0 i); [lia|]. simpl.
    destruct (Z.leb_spec (- Z.of_nat n) i); [|lia].
    reflexivity.
  - destruct (Z.leb_spec 0 i); [|lia].
    destruct (Z.ltb_spec i (Z.of_nat n)); [|lia].
    reflexivity.
Qed.

Lemma py_index_outside n i :
  ~ index_in_range n i -> py_index n i = Err IndexError.
Proof.
  unfold index_in_range, py_index. intros Hout.
  destruct (Z.leb_spec 0 i), (Z.ltb_spec i (Z.of_nat n)),
    (Z.leb_spec (- Z.of_nat n) i), (Z.ltb_spec i 0);
    simpl; try reflexivity; lia.
Qed.

Lemma wrap_index_lt n i : index_in_range n i -> (wrap_index n i < n)%nat.
Proof.
  unfold index_in_range, wrap_index. intros [Hlo Hhi].
  destruct (Z.ltb_spec i 0); lia.
Qed.

Lemma get_column_wrapped r c (M : Matrix) i :
  has_shape r c M -> (0 < r)%nat -> index_in_range c i ->
  get_column M i = Ok (map (fun row => nth (wrap_index c i) row 0) M).
Proof.
  intros HM Hr Hi. unfold get_column.
  now rewrite (has_shape_ncols r c M HM Hr), (py_index_wrapped c i Hi).
Qed.

Lemma get_column_outside r c (M : Matrix) i :
  has_shape r c M -> (0 < r)%nat -> ~ index_in_range c i ->
  get_column M i = Err IndexError.
Proof.
  intros HM Hr Hi. unfold get_column.
  now rewrite (has_shape_ncols r c M HM Hr), (py_index_outside c i Hi).
Qed.

Lemma get_item_wrapped (v : Vector) i :
  index_in_range (length v) i ->
  get_item v i = Ok (nth (wrap_index (length v) i) v 0).
Proof. intros Hi. unfold get_item. now rewrite (py_index_wrapped _ i Hi). Qed.

(** One turn of the loop for indices given in [-m, m). *)
Lemma wrapped_body n m (es : Vector) (coeffs Dx Dy Dz : Matrix) (i j : Z) :
  has_shape n m coeffs -> (0 < n)%nat -> length es = m ->
  has_shape n n Dx -> has_shape n n Dy -> has_shape n n Dz ->
  index_in_range m j ->
  (do css_j <- get_column coeffs j;
   do energy_j <- get_item es j;
   let deltaE := energy_j - nth (wrap_index m i) es 0 in
   do '(fij, components) <-
      oscillator_strength (map (fun row => nth (wrap_index m i) row 0) coeffs)
                          css_j deltaE [Dx; Dy; Dz];
   Ok (mkOscillator i j deltaE fij components))
  = Ok (labelled_record n m es coeffs Dx Dy Dz i j).
Proof.
  intros Hc Hn Hes Hx Hy Hz Hj.
  rewrite (get_column_wrapped n m coeffs j Hc Hn Hj).
  rewrite get_item_wrapped by (rewrite Hes; exact Hj).
  rewrite Hes. simpl bindR.
  rewrite (oscillator_strength_three n m coeffs Dx Dy Dz _ _ _ Hc Hn Hx Hy Hz).
  unfold labelled_record, transition_record. simpl.
  now rewrite !Nat2Z.id.
Qed.

Lemma compute_oscillator_strength_wrapped
    n m (es : Vector) (coeffs Dx Dy Dz : Matrix) (i : Z) (fs : list Z) :
  has_shape n m coeffs -> (0 < n)%nat -> length es = m ->
  has_shape n n Dx -> has_shape n n Dy -> has_shape n n Dz ->
  index_in_range m i -> Forall (index_in_range m) fs ->
  compute_oscillator_strength es coeffs [Dx; Dy; Dz] i fs
  = Ok (map (labelled_record n m es coeffs Dx Dy Dz i) fs).
Proof.
  intros Hc Hn Hes Hx Hy Hz Hi Hfs.
  unfold compute_oscillator_strength.
  rewrite (get_column_wrapped n m coeffs i Hc Hn Hi).
  rewrite get_item_wrapped by (rewrite Hes; exact Hi).
  rewrite Hes. simpl bindR.
  apply mapR_ok. intros j Hj. rewrite List.Forall_forall in Hfs.
  apply (wrapped_body n m es coeffs Dx Dy Dz i j Hc Hn Hes Hx Hy Hz).
  exact (Hfs j Hj).
Qed.

(** X3.  State indices follow numpy indexing: an index i - m, with i in
    [0, m), refers to the same orbital as i.  Calling the calculator
    with the initial state and the final states shifted by -m gives the
    same energy gaps, strengths and dipole components; only the labels
    of the records differ. *)
Theorem negative_state_indices
    n m (es : Vector) (coeffs Dx Dy Dz : Matrix) (i : Z) (fs : list Z) :
  has_shape n m coeffs -> (0 < n)%nat -> length es = m ->
  has_shape n n Dx -> has_shape n n Dy -> has_shape n n Dz ->
  (0 <= i < Z.of_nat m)%Z ->
  Forall (fun j => (0 <= j < Z.of_nat m)%Z) fs ->
  exists records,
    compute_oscillator_strength es coeffs [Dx; Dy; Dz] i fs = Ok records
    /\ compute_oscillator_strength es coeffs [Dx; Dy; Dz]
         (i - Z.of_nat m) (map (fun j => (j - Z.of_nat m)%Z) fs)
       = Ok (map (fun o =>
                    mkOscillator (initialS o - Z.of_nat m)
                                 (finalS o - Z.of_nat m)
                                 (deltaE o) (fij o) (components o))
                 records).
Proof.
  intros Hc Hn Hes Hx Hy Hz Hi Hfs.
  assert (Hwrap : forall k, (0 <= k < Z.of_nat m)%Z ->
            wrap_index m (k - Z.of_nat m) = wrap_index m k).
  { intros k Hk. unfold wrap_index.
    destruct (Z.ltb_spec (k - Z.of_nat m) 0), (Z.ltb_spec k 0); lia. }
  eexists. split.
  - apply (compute_oscillator_strength_wrapped n m es coeffs Dx Dy Dz i fs);
      try assumption.
    + unfold index_in_range. lia.
    + eapply List.Forall_impl; [|exact Hfs].
      intros j Hj. unfold index_in_range. simpl in Hj. lia.
  - rewrite (compute_oscillator_strength_wrapped n m es coeffs Dx Dy Dz);
      try assumption.
    + f_equal. rewrite !map_map. apply map_ext_in. intros j Hj.
      rewrite List.Forall_forall in Hfs. specialize (Hfs j Hj).
      unfold labelled_record. simpl.
      now rewrite !Hwrap by assumption.
    + unfold index_in_range. lia.
    + apply List.Forall_forall. intros j' Hj'.
      apply in_map_iff in Hj' as [j [<- Hj]].
      rewrite List.Forall_forall in Hfs. specialize (Hfs j Hj).
      unfold index_in_range. simpl in Hfs. lia.
Qed.

Lemma negative_state_indices_witness :
  exists records,
    compute_oscillator_strength [1; 0] ex_identity2
      [ex_identity2; ex_identity2; ex_identity2] 0 [1; 0]%Z = Ok records
    /\ compute_oscillator_strength [1; 0] ex_identity2
         [ex_identity2; ex_identity2; ex_identity2]
         (0 - Z.of_nat 2) (map (fun j => (j - Z.of_nat 2)%Z) [1; 0]%Z)
       = Ok (map (fun o =>
                    mkOscillator (initialS o - Z.of_nat 2)
                                 (finalS o - Z.of_nat 2)
                                 (deltaE o) (fij o) (components o))
                 records).
Proof.
  apply (negative_state_indices 2 2 [1; 0] ex_identity2 ex_identity2
           ex_identity2 ex_identity2 0 [1; 0]%Z);
    try (split; [reflexivity | repeat constructor]);
    try reflexivity; try lia.
  repeat constructor; lia.
Defined.

(** X4.  An index outside [-m, m), for the initial state or for any of
    the final states, makes the whole call fail with [IndexError]: no
    record is returned, not even for the final states that precede the
    offending one. *)
Theorem state_index_out_of_range
    n m (es : Vector) (coeffs Dx Dy Dz : Matrix) (i : Z) (fs : list Z) :
  has_shape n m coeffs -> (0 < n)%nat -> length es = m ->
  has_shape n n Dx -> has_shape n n Dy -> has_shape n n Dz ->
  ~ index_in_range m i \/ Exists (fun j => ~ index_in_range m j) fs ->
  compute_oscillator_strength es coeffs [Dx; Dy; Dz] i fs = Err IndexError.
Proof.
  intros Hc Hn Hes Hx Hy Hz Hbad.
  unfold compute_oscillator_strength.
  assert (Hdec : index_in_range m i \/ ~ index_in_range m i)
    by (unfold index_in_range; lia).
  destruct Hdec as [Hi|Hi];
    [|now rewrite (get_column_outside n m coeffs i Hc Hn Hi)].
  destruct Hbad as [Hbad|Hbad]; [contradiction|].
  rewrite (get_column_wrapped n m coeffs i Hc Hn Hi).
  rewrite get_item_wrapped by (rewrite Hes; exact Hi).
  rewrite Hes. simpl bindR.
  apply mapR_first_error.
  - intros j _.
    assert (Hj : index_in_range m j \/ ~ index_in_range m j)
      by (unfold index_in_range; lia).
    destruct Hj as [Hj|Hj].
    + left. eexists.
      apply (wrapped_body n m es coeffs Dx Dy Dz i j Hc Hn Hes Hx Hy Hz Hj).
    + right. now rewrite (get_column_outside n m coeffs j Hc Hn Hj).
  - apply List.Exists_exists in Hbad as [j [Hin Hj]].
    exists j. split; [exact Hin|].
    now rewrite (get_column_outside n m coeffs j Hc Hn Hj).
Qed.

Lemma state_index_out_of_range_witness :
  compute_oscillator_strength [1; 0] ex_identity2
    [ex_identity2; ex_identity2; ex_identity2] 0 [1; 2]%Z
  = Err IndexError.
Proof.
  apply (state_index_out_of_range 2 2 [1; 0] ex_identity2 ex_identity2
           ex_identity2 ex_identity2 0 [1; 2]%Z);
    try (split; [reflexivity | repeat constructor]);
    try reflexivity; try lia.
  right. apply List.Exists_cons_tl, List.Exists_cons_hd.
  unfold index_in_range. lia.
Defined.

(** X5.  The oscillator strength has the sign of the energy gap:
    f . gap >= 0 for every record, so f >= 0 for a final state above
    the initial one; a transition from an orbital to itself has gap 0
    and strength 0. *)
Theorem oscillator_strength_sign
    n m (es : Vector) (coeffs Dx Dy Dz : Matrix) (i : Z) (fs : list Z) :
  has_shape n m coeffs -> (0 < n)%nat -> length es = m ->
  has_shape n n Dx -> has_shape n n Dy -> has_shape n n Dz ->
  index_in_range m i -> Forall (index_in_range m) fs ->
  exists records,
    compute_oscillator_strength es coeffs [Dx; Dy; Dz] i fs = Ok records
    /\ length records = length fs
    /\ Forall (fun o =>
         0 <= fij o * deltaE o
         /\ (0 <= deltaE o -> 0 <= fij o)
         /\ (wrap_index m (finalS o) = wrap_index m (initialS o) ->
             deltaE o = 0 /\ fij o = 0))
       records.
Proof.
  intros Hc Hn Hes Hx Hy Hz Hi Hfs.
  eexists. split.
  { apply (compute_oscillator_strength_wrapped n m es coeffs Dx Dy Dz i fs);
      assumption. }
  split; [apply length_map|].
  apply List.Forall_forall. intros o Ho.
  apply in_map_iff in Ho as [j [<- _]].
  unfold labelled_record, transition_record. simpl.
  rewrite !Nat2Z.id.
  set (dE := nth (wrap_index m j) es 0 - nth (wrap_index m i) es 0).
  set (dx := transition_dipole n coeffs Dx (wrap_index m i) (wrap_index m j)).
  set (dy := transition_dipole n coeffs Dy (wrap_index m i) (wrap_index m j)).
  set (dz := transition_dipole n coeffs Dz (wrap_index m i) (wrap_index m j)).
  set (S := dx ^ 2 + dy ^ 2 + dz ^ 2).
  assert (HS : 0 <= S).
  { unfold S. pose proof (pow2_nonneg dx). pose proof (pow2_nonneg dy).
    pose proof (pow2_nonneg dz). lra. }
  split; [|split].
  - replace (2 / 3 * dE * S * dE) with (2 / 3 * S * dE ^ 2) by ring.
    pose proof (pow2_nonneg dE). nra.
  - intros HdE. nra.
  - intros Hsame. unfold dE. rewrite Hsame. split; ring.
Qed.

Lemma oscillator_strength_sign_witness :
  exists records,
    compute_oscillator_strength [1; 0] ex_identity2
      [ex_identity2; ex_identity2; ex_identity2] 0 [1; -2]%Z = Ok records
    /\ length records = length [1; -2]%Z
    /\ Forall (fun o =>
         0 <= fij o * deltaE o
         /\ (0 <= deltaE o -> 0 <= fij o)
         /\ (wrap_index 2 (finalS o) = wrap_index 2 (initialS o) ->
             deltaE o = 0 /\ fij o = 0))
       records.
Proof.
  apply (oscillator_strength_sign 2 2 [1; 0] ex_identity2 ex_identity2
           ex_identity2 ex_identity2 0 [1; -2]%Z);
    try (split; [reflexivity | repeat constructor]);
    try reflexivity; try lia.
  - unfold index_in_range. lia.
  - repeat constructor; unfold index_in_range; lia.
Defined.

End IndexProperties.

(** ** The frame pipeline *)

Section FrameProperties.
Local Open Scope R_scope.

Lemma matrix_ext r c (A B : Matrix) :
  has_shape r c A -> has_shape r c B ->
  (forall i j, (i < r)%nat -> (j < c)%nat -> entry A i j = entry B i j) ->
  A = B.
Proof.
  intros [HrA HcA] [HrB HcB] Hent.
  rewrite List.Forall_forall in HcA, HcB.
  apply nth_ext with (d := []) (d' := []); [congruence|].
  intros i Hi.
  assert (HlenA : length (nth i A []) = c) by (apply HcA, nth_In; lia).
  assert (HlenB : length (nth i B []) = c) by (apply HcB, nth_In; lia).
  apply nth_ext with (d := 0) (d' := 0); [congruence|].
  intros j Hj. apply (Hent i j); lia.
Qed.

Lemma sum_n_delta n i (f : nat -> R) :
  (i < n)%nat ->
  sum_n n (fun k => (if Nat.eqb i k then 1 else 0) * f k) = f i.
Proof.
  induction n as [|n IH]; intros Hi; [lia|]. simpl.
  destruct (Nat.eqb_spec i n) as [->|Hne].
  - rewrite sum_n_all_zero; [ring|].
    intros k Hk. destruct (Nat.eqb_spec n k); [lia | ring].
  - rewrite IH by lia. ring.
Qed.

Lemma sum_n_delta_r n j (f : nat -> R) :
  (j < n)%nat ->
  sum_n n (fun k => f k * (if Nat.eqb j k then 1 else 0)) = f j.
Proof.
  intros Hj. rewrite <- (sum_n_delta n j f Hj).
  apply sum_n_ext. intros k _. ring.
Qed.

(** X6.  With the identity as transformation matrix,
    [transform2Spherical] returns the matrix it is given. *)
Theorem transform2Spherical_identity n (M : Matrix) :
  (0 < n)%nat -> has_shape n n M ->
  transform2Spherical (identity_matrix n) M = Ok M.
Proof.
  intros Hn HM.
  assert (HI : has_shape n n (identity_matrix n))
    by apply has_shape_mk_matrix.
  unfold transform2Spherical.
  rewrite (np_dot_mm_ok n n n M (transpose (identity_matrix n)) HM
             (transpose_shape _ _ _ HI Hn) Hn Hn).
  simpl bindR.
  rewrite (np_dot_mm_ok n n n (identity_matrix n) _ HI
             (has_shape_mk_matrix _ _ _) Hn Hn).
  f_equal. apply (matrix_ext n n); [apply has_shape_mk_matrix | exact HM |].
  intros i j Hi Hj. rewrite entry_mk_matrix by assumption.
  transitivity
    (sum_n n (fun l => (if Nat.eqb i l then 1 else 0) * entry M l j)).
  - apply sum_n_ext. intros l Hl.
    unfold identity_matrix at 1. rewrite !entry_mk_matrix by assumption.
    f_equal.
    transitivity
      (sum_n n (fun l0 => entry M l l0 * (if Nat.eqb j l0 then 1 else 0))).
    + apply sum_n_ext. intros l0 Hl0.
      rewrite (transpose_entry n n _ l0 j HI Hn Hl0 Hj).
      unfold identity_matrix. now rewrite entry_mk_matrix by assumption.
    + apply (sum_n_delta_r n j (fun l0 => entry M l l0) Hj).
  - apply (sum_n_delta n i (fun l => entry M l j) Hi).
Qed.

Lemma transform2Spherical_identity_witness :
  transform2Spherical (identity_matrix 2) [[1; 2]; [3; 4]]
  = Ok [[1; 2]; [3; 4]].
Proof.
  apply (transform2Spherical_identity 2); [lia|].
  split; [reflexivity | repeat constructor].
Defined.

(** X7.  [transform2Spherical] raises [ValueError] when the matrix does
    not have as many rows as the transformation matrix has columns. *)
Theorem transform2Spherical_mismatch s c r (T M : Matrix) :
  has_shape s c T -> (0 < s)%nat -> has_shape r r M -> (0 < r)%nat ->
  r <> c ->
  transform2Spherical T M = Err ValueError.
Proof.
  intros HT Hs HM Hr Hne. unfold transform2Spherical, np_dot_mm.
  rewrite (has_shape_is_rect _ _ _ HM).
  rewrite (has_shape_is_rect _ _ _ (transpose_shape _ _ _ HT Hs)).
  rewrite (has_shape_ncols _ _ _ HM Hr).
  unfold nrows. destruct (transpose_shape _ _ _ HT Hs) as [-> _].
  simpl. destruct (Nat.eqb_spec r c); [contradiction | reflexivity].
Qed.

Lemma transform2Spherical_mismatch_witness :
  transform2Spherical [[1; 0]] [[1]] = Err ValueError.
Proof.
  apply (transform2Spherical_mismatch 1 2 1);
    try (split; [reflexivity | repeat constructor]); lia.
Defined.

Variable CGFs : Type.
Variable calcMtxMultipoleP :
  list AtomXYZ -> CGFs -> R * R * R -> nat * nat * nat -> Vector.
Variable triang2mtx : Vector -> nat -> result Matrix.

(** X8.  When [triang2mtx] expands a packed triangle as the spec
    describes it and the three packed triangles have c (c + 1) / 2
    entries for a transformation matrix with c columns,
    [calcDipoleCGFS] returns the three dipole matrices in the spherical
    basis, each of the size of the spherical basis and symmetric. *)
Theorem calcDipoleCGFS_shape s c atoms dictCGFs rc (T : Matrix) :
  expands_triangle triang2mtx ->
  has_shape s c T -> (0 < s)%nat -> (0 < c)%nat ->
  (forall kw, In kw [(1, 0, 0); (0, 1, 0); (0, 0, 1)]%nat ->
     length (calcMtxMultipoleP atoms dictCGFs rc kw)
     = (c * (c + 1) / 2)%nat) ->
  exists Sx Sy Sz,
    calcDipoleCGFS CGFs calcMtxMultipoleP triang2mtx atoms dictCGFs rc T
    = Ok [Sx; Sy; Sz]
    /\ Forall (fun S => has_shape s s S /\ is_symmetric s S) [Sx; Sy; Sz].
Proof.
  intros Hexp HT Hs Hc Hlen.
  destruct (calcDipoleCGFS_ok CGFs calcMtxMultipoleP triang2mtx Hexp s c
              atoms dictCGFs rc T HT Hs Hc Hlen)
    as (Sx & Sy & Sz & Heq & HSx & HSy & HSz).
  exists Sx, Sy, Sz. split; [exact Heq|].
  apply List.Forall_cons; [exact HSx|].
  apply List.Forall_cons; [exact HSy|].
  apply List.Forall_cons; [exact HSz|]. apply List.Forall_nil.
Qed.

End FrameProperties.

Lemma calcDipoleCGFS_shape_witness :
  exists Sx Sy Sz,
    calcDipoleCGFS unit ex_packed ex_triang2mtx ex_atom tt (0, 0, 0)%R
      ex_identity2
    = Ok [Sx; Sy; Sz]
    /\ Forall (fun S => has_shape 2 2 S /\ is_symmetric 2 S) [Sx; Sy; Sz].
Proof.
  apply (calcDipoleCGFS_shape unit ex_packed ex_triang2mtx 2 2 ex_atom tt
           (0, 0, 0)%R ex_identity2);
    try (split; [reflexivity | repeat constructor]); try lia.
  - exact ex_triang2mtx_expands.
  - intros kw _. reflexivity.
Defined.

(** ** The frame job *)

Section FrameJobProperties.
Local Open Scope R_scope.

Variable CGFs : Type.
Variable calcMtxMultipoleP :
  list AtomXYZ -> CGFs -> R * R * R -> nat * nat * nat -> Vector.
Variable triang2mtx : Vector -> nat -> result Matrix.
Variable getmass : string -> result Z.
Variable retrieve_mos : nat -> result (Vector * Matrix).

Lemma combine_truncated {A B} (l : list A) (l' : list B) :
  combine l l'
  = combine (firstn (Nat.min (length l) (length l')) l)
            (firstn (Nat.min (length l) (length l')) l').
Proof.
  rewrite <- combine_firstn. symmetry. apply firstn_all2.
  rewrite length_combine. lia.
Qed.

Lemma mapR_length {A B} (f : A -> result B) (xs : list A) ys :
  mapR f xs = Ok ys -> length ys = length xs.
Proof.
  revert ys. induction xs as [|x xs IH]; intros ys H; simpl in H.
  - now injection H as <-.
  - destruct (f x) as [y|e]; [|discriminate]. simpl in H.
    destruct (mapR f xs) as [ys'|e]; [|discriminate]. simpl in H.
    injection H as <-. simpl. f_equal. now apply IH.
Qed.

(** X9.  The initial states are paired with the final-state lists by
    position and the longer of the two lists is cut: surplus entries
    are ignored without an error, and a successful call returns one
    group per pair. *)
Theorem calcOscillatorStrenghts_pairs hdf5_trans_mtx i dictCGFs atoms
    (initial_states : list Z) (final_states : list (list Z)) :
  let k := Nat.min (length initial_states) (length final_states) in
  calcOscillatorStrenghts CGFs calcMtxMultipoleP triang2mtx getmass
    retrieve_mos hdf5_trans_mtx i dictCGFs atoms initial_states final_states
  = calcOscillatorStrenghts CGFs calcMtxMultipoleP triang2mtx getmass
      retrieve_mos hdf5_trans_mtx i dictCGFs atoms
      (firstn k initial_states) (firstn k final_states)
  /\ forall groups,
       calcOscillatorStrenghts CGFs calcMtxMultipoleP triang2mtx getmass
         retrieve_mos hdf5_trans_mtx i dictCGFs atoms initial_states
         final_states
       = Ok groups ->
       length groups = k.
Proof.
  intros k. split.
  - unfold calcOscillatorStrenghts.
    now rewrite (combine_truncated initial_states final_states).
  - intros groups. unfold calcOscillatorStrenghts.
    destruct (retrieve_mos i) as [[es coeffs]|e]; [|discriminate].
    simpl bindR.
    destruct hdf5_trans_mtx as [[t|e]|]; simpl bindR; try discriminate;
      destruct (compute_center_of_mass getmass atoms) as [rc|e];
      simpl bindR; try discriminate.
    destruct (calcDipoleCGFS _ _ _ _ _ _ _) as [mtx|e]; [|discriminate].
    simpl bindR. intros H. apply mapR_length in H.
    rewrite H, length_combine. reflexivity.
Qed.

(** X10.  The errors of the frame job, in the order of the code: the
    error of the orbital lookup; with the orbitals at hand, the error
    of the lookup of the transformation matrix; then the error of
    [compute_center_of_mass], which is the error of a failing mass
    lookup or [TypeError] for a molecule without atoms; and, when no
    path to a transformation matrix is given (the default), an
    unbound-variable error behind a centre of mass that could be
    computed, even if no state is requested. *)
Theorem calcOscillatorStrenghts_lookup_errors hdf5_trans_mtx i dictCGFs atoms
    (initial_states : list Z) (final_states : list (list Z)) :
  let job :=
    calcOscillatorStrenghts CGFs calcMtxMultipoleP triang2mtx getmass
      retrieve_mos hdf5_trans_mtx i dictCGFs atoms initial_states
      final_states in
  (forall e, retrieve_mos i = Err e -> job = Err e)
  /\ (forall mos e,
        retrieve_mos i = Ok mos -> hdf5_trans_mtx = Some (Err e) ->
        job = Err e)
  /\ (forall mos e,
        retrieve_mos i = Ok mos ->
        (forall e', hdf5_trans_mtx <> Some (Err e')) ->
        compute_center_of_mass getmass atoms = Err e ->
        job = Err e)
  /\ (forall mos e,
        retrieve_mos i = Ok mos ->
        (forall e', hdf5_trans_mtx <> Some (Err e')) ->
        (forall a, In a atoms ->
           (exists m, getmass (symbol a) = Ok m)
           \/ getmass (symbol a) = Err e) ->
        (exists a, In a atoms /\ getmass (symbol a) = Err e) ->
        job = Err e)
  /\ (forall mos,
        retrieve_mos i = Ok mos ->
        (forall e', hdf5_trans_mtx <> Some (Err e')) ->
        atoms = [] ->
        job = Err TypeError)
  /\ (forall mos rc,
        retrieve_mos i = Ok mos -> hdf5_trans_mtx = None ->
        compute_center_of_mass getmass atoms = Ok rc ->
        job = Err UnboundLocalError).
Proof.
  intros job. unfold job, calcOscillatorStrenghts.
  assert (Hcom : forall mos e,
            retrieve_mos i = Ok mos ->
            (forall e', hdf5_trans_mtx <> Some (Err e')) ->
            compute_center_of_mass getmass atoms = Err e ->
            (do '(es, coeffs) <- retrieve_mos i;
             do trans_mtx_read <-
                match hdf5_trans_mtx with
                | Some r => do t <- r; Ok (Some t)
                | None => Ok None
                end;
             do rc <- compute_center_of_mass getmass atoms;
             do trans_mtx <-
                match trans_mtx_read with
                | Some t => Ok t
                | None => Err UnboundLocalError
                end;
             do mtx_integrals_spher <-
                calcDipoleCGFS CGFs calcMtxMultipoleP triang2mtx atoms
                  dictCGFs rc trans_mtx;
             mapR (fun '(initialS, fs) =>
                     compute_oscillator_strength es coeffs
                       mtx_integrals_spher initialS fs)
                  (combine initial_states final_states))
            = Err e).
  { intros [es coeffs] e Hmos Htrans Hc. rewrite Hmos. simpl bindR.
    destruct hdf5_trans_mtx as [[t|e']|]; simpl bindR.
    - now rewrite Hc.
    - now destruct (Htrans e').
    - now rewrite Hc. }
  split; [|split; [|split; [|split; [|split]]]].
  - intros e He. now rewrite He.
  - intros [es coeffs] e Hmos ->. now rewrite Hmos.
  - exact Hcom.
  - intros mos e Hmos Htrans Hall Hbad.
    apply (Hcom mos e Hmos Htrans).
    now apply compute_center_of_mass_unknown.
  - intros mos Hmos Htrans ->.
    apply (Hcom mos TypeError Hmos Htrans).
    apply compute_center_of_mass_empty.
  - intros [es coeffs] rc Hmos -> Hc. rewrite Hmos. simpl bindR.
    now rewrite Hc.
Qed.

Lemma weighted_mean_translate (mass : string -> Z) (vx vy vz : R)
    (atoms : list AtomXYZ) :
  total_mass mass atoms <> 0 ->
  weighted_mean mass (translate (vx, vy, vz) atoms)
  = let '(cx, cy, cz) := weighted_mean mass atoms in
    (cx + vx, cy + vy, cz + vz).
Proof.
  intros Hmass.
  set (weighted := fun a : AtomXYZ =>
         let '(x, y, z) := xyz a in
         let m := IZR (mass (symbol a)) in (m * x, m * y, m * z)).
  assert (Hsum :
    py_sum (map (fun r => fst (fst r))
                (map weighted (translate (vx, vy, vz) atoms)))
    = py_sum (map (fun r => fst (fst r)) (map weighted atoms))
      + vx * total_mass mass atoms
    /\ py_sum (map (fun r => snd (fst r))
                   (map weighted (translate (vx, vy, vz) atoms)))
       = py_sum (map (fun r => snd (fst r)) (map weighted atoms))
         + vy * total_mass mass atoms
    /\ py_sum (map (fun r => snd r)
                   (map weighted (translate (vx, vy, vz) atoms)))
       = py_sum (map (fun r => snd r) (map weighted atoms))
         + vz * total_mass mass atoms
    /\ total_mass mass (translate (vx, vy, vz) atoms)
       = total_mass mass atoms).
  { unfold total_mass. clear Hmass.
    induction atoms as [|a atoms (IHx & IHy & IHz & IHm)].
    - simpl. rewrite !py_sum_nil. repeat split; ring.
    - simpl map. rewrite !py_sum_cons, IHx, IHy, IHz, IHm.
      unfold weighted. destruct a as [sym [[x y] z]]. simpl.
      repeat split; ring. }
  destruct Hsum as (Hx & Hy & Hz & Hm).
  unfold weighted_mean. fold weighted. rewrite Hx, Hy, Hz, Hm.
  f_equal; [f_equal|]; field; exact Hmass.
Qed.

(** X11.  Moving every atom by the same vector moves the centre of
    mass by that vector (for a molecule of known masses and non-zero
    total mass). *)
Theorem compute_center_of_mass_translate (mass : string -> Z) vx vy vz
    (atoms : list AtomXYZ) :
  masses_known getmass mass atoms ->
  total_mass mass atoms <> 0 ->
  exists cx cy cz,
    compute_center_of_mass getmass atoms = Ok (cx, cy, cz)
    /\ compute_center_of_mass getmass (translate (vx, vy, vz) atoms)
       = Ok (cx + vx, cy + vy, cz + vz).
Proof.
  intros Hknown Hmass.
  assert (Hne : atoms <> []).
  { intros ->. apply Hmass. unfold total_mass. simpl. apply py_sum_nil. }
  rewrite (compute_center_of_mass_ok getmass mass atoms Hknown Hne).
  rewrite (compute_center_of_mass_ok getmass mass
             (translate (vx, vy, vz) atoms)).
  - rewrite (weighted_mean_translate mass vx vy vz atoms Hmass).
    destruct (weighted_mean mass atoms) as [[cx cy] cz].
    now exists cx, cy, cz.
  - intros a Ha. unfold translate in Ha.
    apply in_map_iff in Ha as [a0 [<- Ha0]].
    destruct (xyz a0) as [[x y] z] eqn:Hxyz. simpl.
    now apply Hknown.
  - destruct atoms; [congruence | discriminate].
Qed.

End FrameJobProperties.

Lemma compute_center_of_mass_translate_witness :
  exists cx cy cz,
    compute_center_of_mass ex_getmass
      [mkAtom "H" (0, 0, 0)%R; mkAtom "H" (2, 0, 0)%R]
    = Ok (cx, cy, cz)
    /\ compute_center_of_mass ex_getmass
         (translate (1, 2, 3)%R
            [mkAtom "H" (0, 0, 0)%R; mkAtom "H" (2, 0, 0)%R])
       = Ok (cx + 1, cy + 2, cz + 3)%R.
Proof.
  apply (compute_center_of_mass_translate ex_getmass (fun _ => 1%Z)).
  - intros a _. reflexivity.
  - unfold total_mass, py_sum. simpl. lra.
Defined.

Lemma calcOscillatorStrenghts_pairs_witness :
  exists groups,
    calcOscillatorStrenghts unit ex_packed ex_triang2mtx ex_getmass ex_mos
      (Some (Ok ex_identity2)) 0 tt ex_atom [0; 1]%Z [[1]]%Z
    = Ok groups
    /\ length groups = 1%nat.
Proof.
  eexists. split.
  - cbv -[Rplus Rmult Rminus Ropp Rdiv Rinv IZR pow]. reflexivity.
  - apply (proj2 (calcOscillatorStrenghts_pairs unit ex_packed ex_triang2mtx
                    ex_getmass ex_mos (Some (Ok ex_identity2)) 0 tt ex_atom
                    [0; 1]%Z [[1]]%Z)).
    cbv -[Rplus Rmult Rminus Ropp Rdiv Rinv IZR pow]. reflexivity.
Defined.

Lemma calcOscillatorStrenghts_lookup_errors_witness :
  calcOscillatorStrenghts unit ex_packed ex_triang2mtx ex_getmass
    (fun _ => Err KeyError) None 0 tt ex_atom [0]%Z [[1]]%Z
  = Err KeyError
  /\ calcOscillatorStrenghts unit ex_packed ex_triang2mtx
       (fun _ => Err ValueError) ex_mos (Some (Ok ex_identity2)) 0 tt
       ex_atom [0]%Z [[1]]%Z
     = Err ValueError
  /\ calcOscillatorStrenghts unit ex_packed ex_triang2mtx ex_getmass ex_mos
       None 0 tt [] [0]%Z [[1]]%Z
     = Err TypeError
  /\ calcOscillatorStrenghts unit ex_packed ex_triang2mtx ex_getmass ex_mos
       None 0 tt ex_atom [] []
     = Err UnboundLocalError.
Proof.
  split; [|split; [|split]].
  - apply (proj1 (calcOscillatorStrenghts_lookup_errors unit ex_packed
                    ex_triang2mtx ex_getmass (fun _ => Err KeyError) None 0
                    tt ex_atom [0]%Z [[1]]%Z)).
    reflexivity.
  - apply (proj1 (proj2 (proj2 (proj2
             (calcOscillatorStrenghts_lookup_errors unit ex_packed
                ex_triang2mtx (fun _ => Err ValueError) ex_mos
                (Some (Ok ex_identity2)) 0 tt ex_atom [0]%Z [[1]]%Z))))
             ([0; 1]%R, ex_identity2));
      [reflexivity | discriminate | now right |].
    eexists. split; [now left | reflexivity].
  - apply (proj1 (proj2 (proj2 (proj2 (proj2
             (calcOscillatorStrenghts_lookup_errors unit ex_packed
                ex_triang2mtx ex_getmass ex_mos None 0 tt [] [0]%Z
                [[1]]%Z)))))
             ([0; 1]%R, ex_identity2));
      [reflexivity | discriminate | reflexivity].
  - eapply (proj2 (proj2 (proj2 (proj2 (proj2
              (calcOscillatorStrenghts_lookup_errors unit ex_packed
                 ex_triang2mtx ex_getmass ex_mos None 0 tt ex_atom [] [])))))
              ([0; 1]%R, ex_identity2));
      [reflexivity | reflexivity |].
    cbv -[Rplus Rmult Rminus Ropp Rdiv Rinv IZR pow]. reflexivity.
Defined.

Section UnitProperties.
Local Open Scope R_scope.

(** X12.  [change_mol_units] keeps the atoms, their order and their
    symbols; converting twice multiplies the factors, so converting
    with a non-zero factor and then with its inverse gives the molecule
    back. *)
Theorem change_mol_units_compose (mol : list AtomXYZ) (a b : R) :
  map symbol (change_mol_units mol a) = map symbol mol
  /\ change_mol_units (change_mol_units mol a) b
     = change_mol_units mol (a * b)
  /\ (a <> 0 -> change_mol_units (change_mol_units mol a) (/ a) = mol).
Proof.
  assert (Hcomp : forall c d,
            change_mol_units (change_mol_units mol c) d
            = change_mol_units mol (c * d)).
  { intros c d. unfold change_mol_units. rewrite map_map.
    apply map_ext. intros [sym [[x y] z]]. simpl.
    f_equal. f_equal; [f_equal|]; ring. }
  split; [|split].
  - unfold change_mol_units. rewrite map_map.
    apply map_ext. now intros [sym [[x y] z]].
  - apply Hcomp.
  - intros Ha. rewrite Hcomp. unfold change_mol_units.
    rewrite <- (map_id mol) at 2. apply map_ext.
    intros [sym [[x y] z]]. simpl.
    f_equal. f_equal; [f_equal|]; field; exact Ha.
Qed.

End UnitProperties.

Lemma change_mol_units_compose_witness :
  change_mol_units
    (change_mol_units [mkAtom "H" (1, 2, 3)%R; mkAtom "O" (0, 0, 1)%R] 2%R)
    (/ 2)%R
  = [mkAtom "H" (1, 2, 3)%R; mkAtom "O" (0, 0, 1)%R].
Proof.
  apply (proj2 (proj2 (change_mol_units_compose
                         [mkAtom "H" (1, 2, 3)%R; mkAtom "O" (0, 0, 1)%R]
                         2%R 1%R))).
  lra.
Defined.

(** ** The cross section and its grid *)

Section SpectrumProperties.
Local Open Scope R_scope.

Lemma py_sum_nonneg (xs : list R) : Forall (fun x => 0 <= x) xs -> 0 <= py_sum xs.
Proof.
  induction xs as [|x xs IH]; intros Hall.
  - rewrite py_sum_nil. lra.
  - inversion Hall as [|? ? Hx Hxs]; subst.
    rewrite py_sum_cons. specialize (IH Hxs). lra.
Qed.

(** The tuples made by [zip_star] hold elements of the zipped lists. *)
Lemma zip_star_Forall {A} (P : A -> Prop) (xss : list (list A)) :
  Forall (Forall P) xss -> Forall (Forall P) (zip_star xss).
Proof.
  induction xss as [|xs rest IH]; intros Hall; [constructor|].
  inversion Hall as [|? ? Hxs Hrest]; subst.
  destruct rest as [|ys rest].
  - simpl. apply List.Forall_forall. intros ws Hws.
    apply in_map_iff in Hws as [x [<- Hx]].
    rewrite List.Forall_forall in Hxs.
    apply List.Forall_cons; [now apply Hxs | apply List.Forall_nil].
  - change (zip_star (xs :: ys :: rest))
      with (map (fun p => fst p :: snd p)
                (combine xs (zip_star (ys :: rest)))).
    specialize (IH Hrest).
    apply List.Forall_forall. intros ws Hws.
    apply in_map_iff in Hws as [[x t] [<- Hin]]. simpl.
    rewrite List.Forall_forall in Hxs, IH.
    apply List.Forall_cons.
    + apply Hxs. eapply in_combine_l, Hin.
    + apply IH. eapply in_combine_r, Hin.
Qed.

Lemma lorentzian_distribution_pos x center delta :
  0 < delta -> 0 < lorentzian_distribution x center delta.
Proof.
  intros Hd. pose proof PI_RGT_0 as Hpi. unfold lorentzian_distribution.
  apply Rmult_lt_0_compat; [apply Rdiv_lt_0_compat; lra|].
  apply Rdiv_lt_0_compat; [lra|].
  pose proof (pow2_nonneg (x - center)).
  assert (0 < (delta / 2) ^ 2) by (apply pow2_pos; lra). lra.
Qed.

Lemma intensity_nonneg oscillators kernel width x :
  (forall c, 0 <= kernel x c width) ->
  Forall (Forall (Forall (fun o => 0 <= fij o))) oscillators ->
  0 <= intensity oscillators kernel width x.
Proof.
  intros Hk Hall. unfold intensity. apply py_sum_nonneg.
  pose proof (zip_star_Forall _ _ Hall) as Hgroups.
  apply List.Forall_forall. intros v Hv.
  apply in_map_iff in Hv as [arr [<- Harr]].
  rewrite List.Forall_forall in Hgroups. specialize (Hgroups arr Harr).
  apply py_sum_nonneg.
  pose proof (zip_star_Forall _ _ Hgroups) as Hws.
  apply List.Forall_forall. intros v Hv.
  apply in_map_iff in Hv as [ws [<- Hin]].
  rewrite List.Forall_forall in Hws. specialize (Hws ws Hin).
  apply Rmult_le_pos.
  - apply py_sum_nonneg. apply List.Forall_forall. intros v Hv.
    apply in_map_iff in Hv as [o [<- Ho]].
    rewrite List.Forall_forall in Hws.
    apply Rmult_le_pos; [now apply Hws | apply Hk].
  - destruct ws as [|o ws]; [simpl; rewrite Rinv_0; lra|].
    apply Rlt_le, Rinv_0_lt_compat, lt_0_INR. simpl. lia.
Qed.

(** X13.  With one of the two kernels of the dictionary, a positive
    width and no negative oscillator strength, no value of the computed
    cross section is negative, whatever the shape of the gathered
    results. *)
Theorem cross_section_nonnegative pc oscillators (convolution : string)
    energies width cross_section :
  0 < width ->
  Forall (Forall (Forall (fun o => 0 <= fij o))) oscillators ->
  compute_cross_section_grid pc oscillators convolution energies width
  = Ok cross_section ->
  length cross_section = length energies
  /\ Forall (fun v => 0 <= v) cross_section.
Proof.
  intros Hw Hall. unfold compute_cross_section_grid.
  destruct (convolution_functions !! convolution) as [kernel|] eqn:Hlook;
    [|discriminate].
  assert (Hk : forall x c, 0 <= kernel x c width).
  { unfold convolution_functions in Hlook.
    destruct (decide (convolution = "gaussian"%string)) as [->|Hg].
    - rewrite lookup_insert_eq in Hlook. injection Hlook as <-.
      intros x c. now apply Rlt_le, gaussian_distribution_pos.
    - rewrite lookup_insert_ne in Hlook by congruence.
      destruct (decide (convolution = "lorentzian"%string)) as [->|Hl].
      + rewrite lookup_insert_eq in Hlook. injection Hlook as <-.
        intros x c. now apply Rlt_le, lorentzian_distribution_pos.
      + rewrite lookup_insert_ne, lookup_empty in Hlook by congruence.
        discriminate. }
  simpl bindR. unfold np_vectorize.
  destruct energies as [|e energies]; [discriminate|].
  intros H. injection H as <-.
  change (compute_cross_section pc oscillators kernel width e
          :: map (compute_cross_section pc oscillators kernel width) energies)
    with (map (compute_cross_section pc oscillators kernel width)
              (e :: energies)).
  split; [apply length_map|].
  apply List.Forall_forall. intros v Hv.
  apply in_map_iff in Hv as [x [<- _]].
  unfold compute_cross_section.
  pose proof (intensity_nonneg oscillators kernel width x (Hk x) Hall).
  pose proof PI_RGT_0.
  apply Rmult_le_pos; [|apply pow2_nonneg].
  apply Rmult_le_pos; [|assumption].
  apply Rlt_le, Rdiv_lt_0_compat; [|lra].
  assert (0 < PI ^ 2) by (apply pow2_pos; lra). lra.
Qed.

Lemma cross_section_nonnegative_witness :
  length [compute_cross_section codata ex_two_frames gaussian_distribution 1 0]
  = length [0]
  /\ Forall (fun v => 0 <= v)
       [compute_cross_section codata ex_two_frames gaussian_distribution 1 0].
Proof.
  apply (cross_section_nonnegative codata ex_two_frames "gaussian" [0] 1).
  - lra.
  - repeat constructor; simpl; lra.
  - reflexivity.
Defined.



(** X15.  A width of zero makes the construction of the grid fail with
    [ZeroDivisionError]; the run then ends at once, with no frame
    computed and no file written. *)
Theorem zero_width_fails pc fl scheduleOscillator mols every
    (convolution : string) e0 e1 jobs w :
  binary64_rounding fl ->
  h2ev pc <> 0 ->
  select_frames every (enumerate mols) = Ok jobs ->
  create_promised_cross_section pc fl 0 (e0, e1) convolution
  = Err ZeroDivisionError
  /\ workflow_oscillator_strength pc fl scheduleOscillator mols every
       convolution 0 (e0, e1) w
     = (w, Err ZeroDivisionError).
Proof.
  intros Hfl Hh Hsel.
  assert (Hgrid : create_promised_cross_section pc fl 0 (e0, e1) convolution
                  = Err ZeroDivisionError).
  { unfold create_promised_cross_section.
    rewrite !(py_div_ok _ _ (h2ev pc)) by exact Hh. simpl bindR.
    unfold py_div.
    destruct (Req_dec_T (fl (0 / h2ev pc)) 0) as [_|Hne]; [reflexivity|].
    exfalso. apply Hne. unfold Rdiv. rewrite Rmult_0_l.
    apply (fl_zero fl Hfl). }
  split; [exact Hgrid|].
  now apply (workflow_grid_error pc fl scheduleOscillator mols every
               convolution 0 (e0, e1) jobs ZeroDivisionError w).
Qed.

Lemma zero_width_fails_witness :
  create_promised_cross_section codata no_rounding 0 (0, 5) "gaussian"
  = Err ZeroDivisionError
  /\ workflow_oscillator_strength codata no_rounding ex_schedule [[]] 1 "gaussian"
       0 (0, 5) ex_world
     = (ex_world, Err ZeroDivisionError).
Proof.
  apply (zero_width_fails codata no_rounding ex_schedule [[]] 1 "gaussian" 0 5
           [(0%nat, [])] ex_world).
  - exact no_rounding_admissible.
  - unfold codata. simpl. lra.
  - reflexivity.
Defined.

End SpectrumProperties.

(** ** The sweep *)

Section SweepProperties.
Local Open Scope R_scope.

Variable pc : PhysicalConstants.
Variable scheduleOscillator :
  nat -> list AtomXYZ -> result (list (list Oscillator)).

Lemma select_frames_filter {A} (every : Z) (ims : list (nat * A)) :
  every <> 0%Z -> select_frames every ims = Ok (divisible_frames every ims).
Proof.
  intros Hne. induction ims as [|[i mol] ims IH]; [reflexivity|].
  simpl. destruct (Z.eqb_spec every 0); [contradiction|].
  rewrite IH. simpl. unfold divisible_frames. simpl.
  now destruct (Z.of_nat i mod every =? 0)%Z.
Qed.

(** X16.  With a stride other than zero the sampled frames are, in
    ascending order, exactly the frames whose index the stride divides
    (the first frame always among them); a stride of zero raises
    [ZeroDivisionError] as soon as there is a frame. *)
Theorem sampled_frames (every : Z) (mol : list AtomXYZ)
    (mols : list (list AtomXYZ)) :
  (every <> 0%Z ->
     exists rest,
       select_frames every (enumerate (mol :: mols))
       = Ok ((0%nat, mol) :: rest)
       /\ (0%nat, mol) :: rest = divisible_frames every (enumerate (mol :: mols))
       /\ Forall (fun p => (every | Z.of_nat (fst p))%Z) ((0%nat, mol) :: rest))
  /\ select_frames 0 (enumerate (mol :: mols)) = Err ZeroDivisionError
  /\ select_frames every (@enumerate (list AtomXYZ) []) = Ok [].
Proof.
  split; [|split; reflexivity].
  intros Hne. rewrite select_frames_filter by exact Hne.
  assert (Hhead : divisible_frames every (enumerate (mol :: mols))
                  = (0%nat, mol)
                    :: divisible_frames every
                         (combine (seq 1 (length mols)) mols)).
  { unfold divisible_frames, enumerate. reflexivity. }
  eexists. split; [rewrite Hhead; reflexivity|].
  split; [now rewrite Hhead|].
  rewrite <- Hhead. apply List.Forall_forall. intros p Hp.
  unfold divisible_frames in Hp. apply filter_In in Hp as [_ Hp].
  apply Z.eqb_eq in Hp. apply Z.mod_divide; assumption.
Qed.

Lemma sampled_frames_witness :
  exists rest,
    select_frames 2 (enumerate [[]; []; []])
    = Ok ((0%nat, @nil AtomXYZ) :: rest)
    /\ (0%nat, []) :: rest = divisible_frames 2 (enumerate [[]; []; []])
    /\ Forall (fun p => (2 | Z.of_nat (fst p))%Z) ((0%nat, []) :: rest).
Proof.
  apply (proj1 (sampled_frames 2 [] [[]; []])). lia.
Defined.


End SweepProperties.

(** ** The files of a run *)

Section OutputProperties.
Local Open Scope R_scope.

Variable pc : PhysicalConstants.
Variable fl : R -> R.

Lemma write_oscillator_short filename osc w :
  (length (components osc) < 3)%nat ->
  write_oscillator pc filename osc w = (w, Err IndexError).
Proof.
  intros Hshort. unfold write_oscillator.
  destruct (components osc) as [|c1 [|c2 [|c3 rest]]]; simpl in Hshort;
    try lia; reflexivity.
Qed.

Lemma write_rows_failure filename pre bad post w l :
  Forall (fun osc => (3 <= length (components osc))%nat) pre ->
  (length (components bad) < 3)%nat ->
  files w !! filename = Some l ->
  forM (pre ++ bad :: post) (fun args => write_oscillator pc filename args) w
  = (mkWorld (<[filename := l ++ map (transition_line pc) pre]> (files w))
             (trace w),
     Err IndexError).
Proof.
  revert w l. induction pre as [|osc pre IH]; intros w l Hpre Hbad Hl.
  - simpl app. simpl forM.
    rewrite (bindM_err _ _ _ _ _ (write_oscillator_short filename bad w Hbad)).
    simpl. rewrite app_nil_r, insert_id by exact Hl. now destruct w.
  - inversion Hpre as [|? ? H3 Hrest]; subst. simpl app. simpl forM.
    rewrite (bindM_ok _ _ _ _ tt (write_oscillator_appends pc filename osc w H3)).
    rewrite (IH _ (l ++ [transition_line pc osc]) Hrest Hbad).
    + simpl. rewrite insert_insert_eq, <- app_assoc. reflexivity.
    + simpl. rewrite Hl. simpl. apply lookup_insert_eq.
Qed.

(** The loop of [write_information] over blocks of which one holds a
    transition with fewer than three components. *)
Lemma write_blocks_failure before pre bad post later w :
  Forall (Forall (fun osc => (3 <= length (components osc))%nat)) before ->
  Forall (fun osc => (3 <= length (components osc))%nat) pre ->
  (length (components bad) < 3)%nat ->
  forM (before ++ (pre ++ bad :: post) :: later) (fun xs =>
    run_ open_w "oscillators.txt" [oscillators_header];
    forM xs (fun args => write_oscillator pc "oscillators.txt" args)) w
  = (mkWorld (<["oscillators.txt"%string :=
                  oscillators_header :: map (transition_line pc) pre]>
                (files w))
             (trace w),
     Err IndexError).
Proof.
  revert w. induction before as [|b before IH]; intros w Hbefore Hpre Hbad.
  - simpl app. simpl forM. apply bindM_err.
    rewrite (bindM_ok _ _ w
               (mkWorld (<["oscillators.txt"%string := [oscillators_header]]>
                           (files w)) (trace w)) tt) by reflexivity.
    rewrite (write_rows_failure _ pre bad post _ [oscillators_header]
               Hpre Hbad) by apply lookup_insert_eq.
    simpl. now rewrite insert_insert_eq.
  - inversion Hbefore as [|? ? Hb Hrest]; subst. simpl app. simpl forM.
    rewrite (bindM_ok _ _ _ _ tt (write_block pc _ _ b w Hb)).
    rewrite (IH _ Hrest Hpre Hbad). simpl. now rewrite insert_insert_eq.
Qed.

(** X18.  The first transition whose tuple of components has fewer
    than three entries, in whichever frame and block it stands, stops
    [write_information] with [IndexError]: the table then holds the
    header and the rows of that block written before the transition,
    and the later blocks are not written. *)
Theorem write_information_short_components data before pre bad post later w :
  concat data = before ++ (pre ++ bad :: post) :: later ->
  Forall (Forall (fun osc => (3 <= length (components osc))%nat)) before ->
  Forall (fun osc => (3 <= length (components osc))%nat) pre ->
  (length (components bad) < 3)%nat ->
  write_information pc data w
  = (mkWorld (<["oscillators.txt"%string :=
                  oscillators_header :: map (transition_line pc) pre]>
                (files w))
             (trace w),
     Err IndexError).
Proof.
  intros Hdata Hbefore Hpre Hbad. unfold write_information.
  rewrite Hdata. now apply write_blocks_failure.
Qed.


Variable scheduleOscillator :
  nat -> list AtomXYZ -> result (list (list Oscillator)).



End OutputProperties.

Section OutputWitnesses.
Local Open Scope R_scope.

(** Two frames; the second transition of the block of the second frame
    has two components only. *)
Lemma write_information_short_components_witness :
  write_information codata
    [[[ex_second]]; [[ex_first; mkOscillator 0 2 1 1 [0; 0]; ex_second]]]
    ex_world
  = (mkWorld (<["oscillators.txt"%string :=
                  oscillators_header
                  :: map (transition_line codata) [ex_first]]> ∅)
             [],
     Err IndexError).
Proof.
  apply (write_information_short_components codata
           [[[ex_second]]; [[ex_first; mkOscillator 0 2 1 1 [0; 0]; ex_second]]]
           [[ex_second]] [ex_first]
           (mkOscillator 0 2 1 1 [0; 0]) [ex_second] [] ex_world).
  - reflexivity.
  - repeat constructor.
  - repeat constructor.
  - simpl. lia.
Defined.


End OutputWitnesses.

(** ** The store and the cache *)

Section StoreProperties.

Variable uuid4 : nat -> string.
Variable compute_integrals_multipole :
  list AtomXYZ -> string -> string -> result ndarray.

(** X21.  A dataset that exists is never overwritten: storing a tensor
    of its shape, with an element type that can be cast safely to the
    one of the dataset, leaves the world as it is, so the dataset still
    holds what it held; storing a tensor of another shape, or with
    binary64 as element type when the dataset holds binary32 numbers,
    raises [TypeError] and changes nothing either. *)
Theorem store_keeps_existing (file key : string) (tensor old : ndarray)
    (dt : dtype) (d : Disk) (f5 : gmap string ndarray) :
  hdf5 d !! file = Some f5 -> f5 !! key = Some old ->
  (nd_shape old = nd_shape tensor -> can_cast dt (nd_dtype old) = true ->
     store_arrays_in_hdf5 file key tensor dt d = (d, Ok tt)
     /\ retrieve_hdf5_data file key d = (d, Ok old))
  /\ (nd_shape old <> nd_shape tensor
      \/ (dt = Float64 /\ nd_dtype old = Float32) ->
      store_arrays_in_hdf5 file key tensor dt d = (d, Err TypeError)).
Proof.
  intros Hf Hk. unfold store_arrays_in_hdf5, retrieve_hdf5_data.
  rewrite Hf, Hk. split.
  - intros Hshape Hcast.
    now rewrite bool_decide_eq_true_2, Hcast by exact Hshape.
  - intros [Hshape | [-> Hold]].
    + now rewrite bool_decide_eq_false_2 by exact Hshape.
    + rewrite Hold. simpl. now destruct (bool_decide _).
Qed.

(** A binary32 dataset of shape 1 x 1: a tensor of that shape stored as
    binary32 is accepted and not written, one stored as binary64 is
    refused. *)
Lemma store_keeps_existing_witness :
  (store_arrays_in_hdf5 "test.hdf5" "overlap"
     (mkArray Float64 [1; 1]%nat [tenth64]) Float32 ex_disk32
   = (ex_disk32, Ok tt)
   /\ retrieve_hdf5_data "test.hdf5" "overlap" ex_disk32
      = (ex_disk32, Ok ex_dataset32))
  /\ store_arrays_in_hdf5 "test.hdf5" "overlap"
       (mkArray Float64 [1; 1]%nat [tenth64]) Float64 ex_disk32
     = (ex_disk32, Err TypeError).
Proof.
  split.
  - apply (proj1 (store_keeps_existing "test.hdf5" "overlap"
                    (mkArray Float64 [1; 1]%nat [tenth64]) ex_dataset32
                    Float32 ex_disk32 (<["overlap"%string := ex_dataset32]> ∅)
                    eq_refl eq_refl));
      reflexivity.
  - apply (proj2 (store_keeps_existing "test.hdf5" "overlap"
                    (mkArray Float64 [1; 1]%nat [tenth64]) ex_dataset32
                    Float64 ex_disk32 (<["overlap"%string := ex_dataset32]> ∅)
                    eq_refl eq_refl)).
    right. split; reflexivity.
Defined.

(** X22.  When the HDF5 file does not exist, the cache still computes:
    for a known kind whose computation succeeds the library is called
    once and the scratch file is removed, but the result is lost, since
    storing it raises [OSError]. *)
Theorem cache_without_file config inp multipole d a m :
  known_multipole multipole ->
  hdf5 d !! path_hdf5 config = None ->
  compute_integrals_multipole (inp_mol inp) (cp2k_basis config) multipole
  = Ok a ->
  arrange multipole a = Ok m ->
  get_multipole_matrix uuid4 compute_integrals_multipole config inp multipole d
  = (mkDisk (hdf5 d) (delete (scratch_file uuid4 config d) (scratch d))
            (kernel_calls d ++ [kernel_call uuid4 config multipole d])
            (S (uuid_count d)),
     Err OSError).
Proof.
  intros Hknown Hf Hkernel Harr. unfold get_multipole_matrix.
  fold (multipole_key config inp multipole).
  rewrite (bindM_ok _ _ d d None).
  2: { apply search_multipole_miss. intros f Hf'. congruence. }
  erewrite bindM_ok.
  2: { rewrite compute_matrix_multipole_known by exact Hknown.
       rewrite Hkernel. simpl bindR. rewrite Harr. reflexivity. }
  apply bindM_err. unfold store_arrays_in_hdf5. simpl. now rewrite Hf.
Qed.

End StoreProperties.

Lemma cache_without_file_witness :
  get_multipole_matrix ex_uuid4 ex_kernel ex_config ex_input "overlap"
    (mkDisk ∅ ∅ [] 0)
  = (mkDisk ∅ (delete (scratch_file ex_uuid4 ex_config (mkDisk ∅ ∅ [] 0)) ∅)
            ([] ++ [kernel_call ex_uuid4 ex_config "overlap" (mkDisk ∅ ∅ [] 0)])
            1,
     Err OSError).
Proof.
  apply (cache_without_file ex_uuid4 ex_kernel ex_config ex_input "overlap"
           (mkDisk ∅ ∅ [] 0)
           (mkArray Float64 [1; 1] [tenth64])
           (mkArray Float64 [1; 1] [tenth64]));
    try reflexivity.
  now left.
Defined.

Section PlaneProperties.

Lemma reshape_planes (a : ndarray) (planes dim : nat) :
  reshape a [planes; dim; dim]
  = if Nat.eqb (planes * dim * dim) (length (nd_data a))
    then Ok (mkArray (nd_dtype a) [planes; dim; dim] (nd_data a))
    else Err ValueError.
Proof.
  unfold reshape. simpl fold_right.
  now rewrite Nat.mul_1_r, Nat.mul_assoc.
Qed.

(** X23.  For the dipole (4 planes) and the quadrupole (10 planes) the
    tensor returned by the library is cut into planes of dim x dim,
    where dim is its second dimension, keeping the elements and their
    order; this needs exactly planes . dim . dim elements, otherwise the
    call fails with [ValueError], and with [IndexError] when the tensor
    has no second dimension - in both cases leaving the scratch file. *)
Theorem stacked_planes uuid4 compute_integrals_multipole mol config
    (multipole : string) planes d a :
  (multipole = "dipole"%string /\ planes = 4%nat)
  \/ (multipole = "quadrupole"%string /\ planes = 10%nat) ->
  compute_integrals_multipole mol (cp2k_basis config) multipole = Ok a ->
  let out := compute_matrix_multipole uuid4 compute_integrals_multipole mol
               config multipole d in
  match nth_error (nd_shape a) 1 with
  | Some dim =>
      if Nat.eqb (planes * dim * dim) (length (nd_data a))
      then snd out = Ok (mkArray (nd_dtype a) [planes; dim; dim] (nd_data a))
           /\ scratch (fst out) !! scratch_file uuid4 config d = None
      else snd out = Err ValueError
           /\ scratch (fst out) !! scratch_file uuid4 config d = Some mol
  | None =>
      snd out = Err IndexError
      /\ scratch (fst out) !! scratch_file uuid4 config d = Some mol
  end.
Proof.
  intros Hkind Hkernel out. subst out.
  assert (Hknown : known_multipole multipole).
  { unfold known_multipole. tauto. }
  rewrite compute_matrix_multipole_known by exact Hknown.
  rewrite Hkernel. simpl bindR. cbv zeta.
  assert (Harr : arrange multipole a
                 = do dim <- shape1 a; reshape a [planes; dim; dim]).
  { unfold arrange. now destruct Hkind as [[-> ->]|[-> ->]]. }
  rewrite Harr. unfold shape1.
  destruct (nth_error (nd_shape a) 1) as [dim|]; simpl bindR.
  - rewrite reshape_planes.
    destruct (Nat.eqb (planes * dim * dim) (length (nd_data a))); simpl.
    + split; [reflexivity | apply lookup_delete_eq].
    + split; [reflexivity | apply lookup_insert_eq].
  - simpl. split; [reflexivity | apply lookup_insert_eq].
Qed.

Lemma stacked_planes_witness :
  let out := compute_matrix_multipole ex_uuid4
               (fun _ _ _ =>
                  Ok (mkArray Float64 [4; 1]
                        [tenth64; tenth64; tenth64; tenth64]))
               [] ex_config "dipole" ex_disk in
  match nth_error [4; 1]%nat 1 with
  | Some dim =>
      if Nat.eqb (4 * dim * dim) 4
      then snd out
           = Ok (mkArray Float64 [4; dim; dim]
                   [tenth64; tenth64; tenth64; tenth64])
           /\ scratch (fst out) !! scratch_file ex_uuid4 ex_config ex_disk
              = None
      else snd out = Err ValueError
           /\ scratch (fst out) !! scratch_file ex_uuid4 ex_config ex_disk
              = Some []
  | None =>
      snd out = Err IndexError
      /\ scratch (fst out) !! scratch_file ex_uuid4 ex_config ex_disk = Some []
  end.
Proof.
  apply (stacked_planes ex_uuid4
           (fun _ _ _ =>
              Ok (mkArray Float64 [4; 1] [tenth64; tenth64; tenth64; tenth64]))
           [] ex_config "dipole" 4 ex_disk
           (mkArray Float64 [4; 1] [tenth64; tenth64; tenth64; tenth64])).
  - left. split; reflexivity.
  - reflexivity.
Defined.

End PlaneProperties.

(** ** The keys of the store *)

Section KeyProperties.

Lemma without_cons c x s :
  x <> c -> without c s -> without c (String x s).
Proof.
  intros Hc Hs s1 s2 Heq. destruct s1 as [|c1 s1]; simpl in Heq.
  - injection Heq as -> _. congruence.
  - injection Heq as _ Heq. exact (Hs s1 s2 Heq).
Qed.

Lemma without_empty c : without c EmptyString.
Proof. intros [|x s1] s2 H; discriminate. Qed.

Lemma without_tail c x s : without c (String x s) -> without c s.
Proof. intros H s1 s2 Heq. apply (H (String x s1) s2). simpl. now rewrite Heq. Qed.

Lemma pretty_N_char_not c x :
  c = "/"%char \/ c = "."%char -> pretty_N_char x <> c.
Proof.
  intros [-> | ->]; unfold pretty_N_char; repeat case_match; discriminate.
Qed.

Lemma pretty_N_go_without c x s :
  c = "/"%char \/ c = "."%char -> without c s -> without c (pretty_N_go x s).
Proof.
  intros Hc. revert s. induction (N.lt_wf_0 x) as [x _ IH]; intros s Hs.
  assert (x = 0 \/ 0 < x)%N as [->|Hpos] by lia.
  - now rewrite pretty_N_go_0.
  - rewrite pretty_N_go_step by exact Hpos. apply IH.
    + now apply N.div_lt.
    + apply without_cons; [now apply pretty_N_char_not | exact Hs].
Qed.

(** The decimal form of an integer holds neither a slash nor a dot. *)
Lemma pretty_Z_without c (z : Z) :
  c = "/"%char \/ c = "."%char -> without c (pretty z).
Proof.
  intros Hc.
  assert (HN : forall n : N, without c (pretty n)).
  { intros n. unfold pretty, pretty_N. case_decide.
    - apply without_cons; [destruct Hc as [-> | ->]; discriminate
                          | apply without_empty].
    - apply pretty_N_go_without; [exact Hc | apply without_empty]. }
  destruct z as [|p|p]; unfold pretty, pretty_Z.
  - apply without_cons; [destruct Hc as [-> | ->]; discriminate
                        | apply without_empty].
  - apply (HN (Npos p)).
  - apply without_cons; [destruct Hc as [-> | ->]; discriminate
                        | apply (HN (Npos p))].
Qed.

Lemma pretty_Z_no_slash (z : Z) : no_slash (pretty z).
Proof. apply pretty_Z_without. now left. Qed.

(** Two strings cut at the first occurrence of a character. *)
Lemma split_at_char c a a' k k' :
  without c a -> without c a' ->
  a +:+ String c k = a' +:+ String c k' ->
  a = a' /\ k = k'.
Proof.
  revert a'. induction a as [|x a IH]; intros a' Ha Ha' Heq.
  - destruct a' as [|x' a']; simpl in Heq.
    + injection Heq as ->. now split.
    + injection Heq as <- Heq. exfalso.
      apply (Ha' EmptyString a'). reflexivity.
  - destruct a' as [|x' a']; simpl in Heq.
    + injection Heq as -> Heq. exfalso.
      apply (Ha EmptyString a). reflexivity.
    + injection Heq as -> Heq.
      destruct (IH a') as [-> ->]; [| |exact Heq|now split].
      * exact (without_tail _ _ _ Ha).
      * exact (without_tail _ _ _ Ha').
Qed.

Lemma split_at_slash a a' k k' :
  no_slash a -> no_slash a' ->
  a +:+ String "/"%char k = a' +:+ String "/"%char k' ->
  a = a' /\ k = k'.
Proof. apply split_at_char. Qed.

Lemma ends_with_sep_app s t :
  t <> EmptyString -> ends_with_sep (s +:+ t) = ends_with_sep t.
Proof.
  intros Ht. induction s as [|c s IH]; [reflexivity|].
  simpl. rewrite IH.
  destruct (s +:+ t) eqn:Hst; [|reflexivity].
  destruct s; simpl in Hst; [contradiction | discriminate].
Qed.

Lemma no_slash_ends_with_sep t : no_slash t -> ends_with_sep t = false.
Proof.
  induction t as [|c t IH]; intros Ht; [reflexivity|].
  simpl. destruct t as [|c' t'].
  - destruct (Ascii.eqb_spec c "/"%char) as [->|]; [|reflexivity].
    exfalso. apply (Ht EmptyString EmptyString). reflexivity.
  - apply IH. intros s1 s2 H. apply (Ht (String c s1) s2). simpl. now rewrite H.
Qed.

Lemma append_String x (a b : string) : String x a +:+ b = String x (a +:+ b).
Proof. reflexivity. Qed.

Lemma String_app_assoc (a b c : string) : (a +:+ b) +:+ c = a +:+ (b +:+ c).
Proof.
  induction a as [|x a IH]; [reflexivity|].
  now rewrite !append_String, IH.
Qed.

Lemma String_app_inv_head (a b c : string) : a +:+ b = a +:+ c -> b = c.
Proof.
  induction a as [|x a IH]; intros H; [exact H|].
  rewrite !append_String in H. injection H as H. now apply IH.
Qed.

Lemma pretty_N_go_nonempty x s :
  s <> EmptyString -> pretty_N_go x s <> EmptyString.
Proof.
  revert s. induction (N.lt_wf_0 x) as [x _ IH]; intros s Hs.
  assert (x = 0 \/ 0 < x)%N as [->|Hpos] by lia.
  - now rewrite pretty_N_go_0.
  - rewrite pretty_N_go_step by exact Hpos. apply IH.
    + now apply N.div_lt.
    + discriminate.
Qed.

Lemma pretty_Z_nonempty (z : Z) : pretty z <> EmptyString.
Proof.
  assert (HN : forall n : N, pretty n <> EmptyString).
  { intros n. unfold pretty, pretty_N. case_decide as Hn; [discriminate|].
    rewrite pretty_N_go_step by lia. apply pretty_N_go_nonempty. discriminate. }
  destruct z as [|p|p]; unfold pretty, pretty_Z; try discriminate.
  apply (HN (Npos p)).
Qed.

(** The key of a point and a kind that does not start with a slash:
    the prefix of the project, the decimal point number, a slash and
    the kind. *)
Lemma multipole_key_form config inp (multipole : string) :
  starts_with_sep multipole = false ->
  multipole_key config inp multipole
  = key_prefix config
    +:+ (pretty (inp_i inp + enumerate_from config)%Z
         +:+ String "/"%char multipole).
Proof.
  intros Hstart. unfold multipole_key, join. simpl fold_left.
  set (num := pretty (inp_i inp + enumerate_from config)%Z).
  assert (Hroot : join2 (join2 (project_name config) "multipole")
                        ("point_" +:+ num)
                  = key_prefix config +:+ num).
  { unfold join2 at 1. simpl starts_with_sep. cbv iota.
    unfold key_prefix.
    destruct (String.eqb _ EmptyString || ends_with_sep _).
    - now rewrite String_app_assoc.
    - now rewrite !String_app_assoc. }
  rewrite Hroot. unfold join2. rewrite Hstart.
  assert (Hne : key_prefix config +:+ num <> EmptyString).
  { intros H. apply (pretty_Z_nonempty (inp_i inp + enumerate_from config)).
    fold num. destruct (key_prefix config); [exact H | discriminate]. }
  destruct (String.eqb_spec (key_prefix config +:+ num) EmptyString);
    [contradiction|].
  rewrite ends_with_sep_app by apply pretty_Z_nonempty.
  rewrite no_slash_ends_with_sep by apply pretty_Z_no_slash.
  simpl orb. cbv iota. now rewrite String_app_assoc.
Qed.

(** X24.  Keys do not collide: for kinds that do not start with a
    slash (the three known kinds among them), two keys of the same
    project are equal only for the same point number and the same
    kind. *)
Theorem multipole_key_injective config inp inp' (multipole multipole' : string) :
  starts_with_sep multipole = false ->
  starts_with_sep multipole' = false ->
  multipole_key config inp multipole = multipole_key config inp' multipole' ->
  inp_i inp = inp_i inp' /\ multipole = multipole'.
Proof.
  intros Hs Hs' Heq.
  rewrite (multipole_key_form config inp multipole Hs) in Heq.
  rewrite (multipole_key_form config inp' multipole' Hs') in Heq.
  apply String_app_inv_head in Heq.
  apply split_at_slash in Heq as [Hnum Hkind];
    [|apply pretty_Z_no_slash..].
  split; [|exact Hkind].
  apply (inj pretty) in Hnum. lia.
Qed.

Lemma multipole_key_injective_witness :
  inp_i (mkInput 3 []) = inp_i (mkInput 3 []) /\ "dipole"%string = "dipole"%string.
Proof.
  apply (multipole_key_injective ex_config (mkInput 3 []) (mkInput 3 [])
           "dipole" "dipole"); reflexivity.
Defined.

End KeyProperties.

(** ** The file names of a point *)

Section FileNameProperties.

Lemma append_head_char c c' (a b x y : string) :
  String c a +:+ x = String c' b +:+ y -> c = c'.
Proof. rewrite !append_String. now intros [= -> _]. Qed.

(** A name that does not start with a slash is put behind the
    directory part. *)
Lemma join_one_name (work_dir name : string) :
  starts_with_sep name = false ->
  join work_dir [name] = dir_prefix work_dir +:+ name.
Proof.
  intros Hname. unfold join. simpl fold_left. unfold join2, dir_prefix.
  rewrite Hname.
  destruct (String.eqb work_dir EmptyString || ends_with_sep work_dir);
    [reflexivity | now rewrite String_app_assoc].
Qed.

Lemma create_file_names_form (work_dir : string) (i : Z) :
  job_files (create_file_names work_dir i)
  = [dir_prefix work_dir +:+ ("coordinates_" +:+ pretty i +:+ ".xyz");
     dir_prefix work_dir +:+ ("point_" +:+ pretty i +:+ ".inp");
     dir_prefix work_dir +:+ ("point_" +:+ pretty i +:+ ".out");
     dir_prefix work_dir +:+ ("mo_coeff_" +:+ pretty i +:+ ".out")].
Proof.
  unfold job_files, create_file_names. cbv zeta.
  cbv [get_xyz get_inp get_out get_MO].
  now rewrite !join_one_name by reflexivity.
Qed.

(** Two names with the same stem, cut at the dot behind the number. *)
Lemma numbered_name_inv (i j : Z) (ext ext' : string) :
  pretty i +:+ String "."%char ext = pretty j +:+ String "."%char ext' ->
  i = j /\ ext = ext'.
Proof.
  intros H. apply split_at_char in H as [Hnum Hext];
    [|apply pretty_Z_without; now right..].
  split; [|exact Hext]. now apply (inj pretty) in Hnum.
Qed.

(** What an equality of two of the names of two points gives: the
    same point, and never two different roles. *)
Ltac name_clash H :=
  apply String_app_inv_head in H;
  first
    [ apply append_head_char in H; discriminate H
    | apply String_app_inv_head in H;
      apply numbered_name_inv in H as [? ?];
      first [ discriminate | assumption | congruence ] ].

(** X25.  The four file names of a point are pairwise different. *)
Theorem create_file_names_distinct (work_dir : string) (i : Z) :
  NoDup (job_files (create_file_names work_dir i)).
Proof.
  rewrite create_file_names_form.
  repeat (apply NoDup_cons; split);
    [ .. | apply NoDup_nil; exact I ];
    rewrite ?list_elem_of_In; simpl; intros Hin;
    repeat (destruct Hin as [Hin | Hin]; [symmetry in Hin; name_clash Hin|]);
    try exact Hin.
Qed.

(** X26.  Two points of the same directory share no file: a name that
    belongs to the files of the point i and to those of the point j
    forces i = j. *)
Theorem create_file_names_disjoint (work_dir : string) (i j : Z) (x : string) :
  In x (job_files (create_file_names work_dir i)) ->
  In x (job_files (create_file_names work_dir j)) ->
  i = j.
Proof.
  rewrite !create_file_names_form. simpl. intros Hi Hj.
  repeat (destruct Hi as [Hi | Hi]; [|]); try contradiction;
    subst x;
    repeat (destruct Hj as [Hj | Hj]; [|]); try contradiction;
    name_clash Hj.
Qed.

Lemma create_file_names_disjoint_witness : 3%Z = 3%Z.
Proof.
  apply (create_file_names_disjoint "scratch" 3 3 "scratch/point_3.inp").
  - right. left. vm_compute. reflexivity.
  - right. left. vm_compute. reflexivity.
Defined.

End FileNameProperties.

(** ** The labels of the spherical shells *)

Section ShellProperties.

Lemma fold_left_Zadd (ns : list Z) (acc : Z) :
  fold_left Z.add ns acc = (acc + fold_right Z.add 0 ns)%Z.
Proof.
  revert acc. induction ns as [|n ns IH]; intros acc; simpl; [lia|].
  rewrite IH. lia.
Qed.

Lemma fold_left_Nadd (ns : list nat) (acc : nat) :
  fold_left Nat.add ns acc = acc + list_sum ns.
Proof.
  revert acc. induction ns as [|n ns IH]; intros acc; simpl; [lia|].
  rewrite IH. lia.
Qed.

Lemma list_sum_lengths_repeat {A} (labels : list A) (k : nat) :
  list_sum (map (fun x => length x) (repeat labels k)) = k * length labels.
Proof. induction k as [|k IH]; simpl; [reflexivity | now rewrite IH]. Qed.

(** One known label: the labels of the shell, once for each of its
    contracted functions. *)
Lemma funSlabels_known (label : string) (labels : list string)
    (fs : shell_format) :
  dict_cp2k_order_sphericals !! label = Some labels ->
  funSlabels dict_cp2k_order_sphericals label fs
  = Ok (repeat labels (shell_total fs)).
Proof.
  intros Hlabel. unfold funSlabels. rewrite Hlabel. unfold py_repeat.
  destruct fs as [n | ns]; simpl; [reflexivity|].
  now rewrite fold_left_Zadd.
Qed.

Lemma sphericals_s : dict_cp2k_order_sphericals !! "s"%string = Some ["s"%string].
Proof. reflexivity. Qed.

Lemma sphericals_p :
  dict_cp2k_order_sphericals !! "p"%string = Some ["py"; "pz"; "px"]%string.
Proof. reflexivity. Qed.

Lemma sphericals_d :
  dict_cp2k_order_sphericals !! "d"%string
  = Some ["d-2"; "d-1"; "d0"; "d+1"; "d+2"]%string.
Proof. reflexivity. Qed.

Lemma sphericals_f :
  dict_cp2k_order_sphericals !! "f"%string
  = Some ["f-3"; "f-2"; "f-1"; "f0"; "f+1"; "f+2"; "f+3"]%string.
Proof. reflexivity. Qed.

Lemma sphericals_g : dict_cp2k_order_sphericals !! "g"%string = None.
Proof. reflexivity. Qed.

Lemma funSlabels_g (fs : shell_format) :
  funSlabels dict_cp2k_order_sphericals "g" fs = Err KeyError.
Proof. unfold funSlabels. now rewrite sphericals_g. Qed.

Ltac shells :=
  unfold number_spherical_functions, calc_orbital_Slabels;
  cbv zeta; simpl combine; simpl mapR;
  rewrite ?(funSlabels_known _ _ _ sphericals_s),
          ?(funSlabels_known _ _ _ sphericals_p),
          ?(funSlabels_known _ _ _ sphericals_d),
          ?(funSlabels_known _ _ _ sphericals_f),
          ?funSlabels_g;
  simpl bindR.

(** X27.  Up to four kinds of shells (s, p, d, f): the number of
    spherical functions of an atom is the sum over the kinds of
    2 l + 1 for each contracted function, whether a kind is given by
    its number of functions or by the sizes of its contractions; a
    negative number counts as none. *)
Theorem number_spherical_functions_count (fss : list shell_format) :
  length fss <= 4 ->
  number_spherical_functions fss = Ok (spherical_count fss).
Proof.
  intros Hlen.
  destruct fss as [|a [|b [|c [|d [|e rest]]]]]; simpl in Hlen; try lia;
    shells; f_equal; rewrite fold_left_Nadd;
    unfold spherical_count; simpl spherical_count_from;
    simpl concat;
    rewrite ?map_app, ?list_sum_app, ?list_sum_lengths_repeat;
    simpl; lia.
Qed.

Lemma number_spherical_functions_count_witness :
  number_spherical_functions [Contraction [5; 1; 1]%Z; Contraction [3; 1]%Z; Count 1]
  = Ok 24.
Proof.
  apply (number_spherical_functions_count
           [Contraction [5; 1; 1]%Z; Contraction [3; 1]%Z; Count 1]).
  simpl. lia.
Defined.

(** X28.  A fifth kind of shell always fails: the label g is paired
    with it, and the table of the orderings has no entry for g, so the
    lookup raises KeyError, also when the fifth kind holds no function
    at all. *)
Theorem number_spherical_functions_fifth_kind (fss : list shell_format) :
  5 <= length fss ->
  calc_orbital_Slabels fss = Err KeyError
  /\ number_spherical_functions fss = Err KeyError.
Proof.
  intros Hlen.
  destruct fss as [|a [|b [|c [|d [|e rest]]]]]; simpl in Hlen; try lia.
  assert (H : calc_orbital_Slabels (a :: b :: c :: d :: e :: rest)
              = Err KeyError).
  { unfold calc_orbital_Slabels. cbv zeta. simpl combine. simpl mapR.
    rewrite (funSlabels_known _ _ _ sphericals_s),
            (funSlabels_known _ _ _ sphericals_p),
            (funSlabels_known _ _ _ sphericals_d),
            (funSlabels_known _ _ _ sphericals_f),
            funSlabels_g.
    reflexivity. }
  split; [exact H|]. unfold number_spherical_functions. now rewrite H.
Qed.

Lemma number_spherical_functions_fifth_kind_witness :
  calc_orbital_Slabels [Count 1; Count 1; Count 1; Count 1; Count 0]
  = Err KeyError
  /\ number_spherical_functions [Count 1; Count 1; Count 1; Count 1; Count 0]
     = Err KeyError.
Proof.
  apply (number_spherical_functions_fifth_kind
           [Count 1; Count 1; Count 1; Count 1; Count 0]).
  simpl. lia.
Defined.

End ShellProperties.
